(** * Telegraf: update classification, context resolution and webhook ingestion

    A shallow embedding of [src/context.ts] (the [Context] class and
    [getMessageFromAnySource]) and of [generateWebhook], together with
    the properties the specification states about them.

    An [Update] reaches the code as a plain JavaScript object (the
    webhook hands over whatever [JSON.parse] produced), so values are
    modelled as runtime JavaScript values and every operator the source
    uses ([typeof], [??], [?.], [.], [===], object spread) is given its
    runtime meaning. *)

From Stdlib Require Import String List ZArith Bool Ascii Lia DecimalString DecimalZ.
Import ListNotations.
Open Scope string_scope.
Open Scope list_scope.
Set Warnings "-register-all".

(** ** JavaScript values *)

Module Js.

(** A JavaScript object is kept as the list of its properties in
    enumeration order, which is what [for (const key in o)] walks. *)
Inductive JsValue : Type :=
| JUndefined
| JNull
| JBool (b : bool)
| JNumber (n : Z)
| JString (s : string)
| JArray (items : list JsValue)
| JObject (props : list (string * JsValue)).

Definition JsObj : Type := list (string * JsValue).

(** [typeof v]. *)
Definition typeof (v : JsValue) : string :=
  match v with
  | JUndefined => "undefined"
  | JNull => "object"
  | JBool _ => "boolean"
  | JNumber _ => "number"
  | JString _ => "string"
  | JArray _ => "object"
  | JObject _ => "object"
  end.

(** [v === undefined]. *)
Definition is_undefined (v : JsValue) : bool :=
  match v with JUndefined => true | _ => false end.

(** [v == null], the test behind [??] and [?.]. *)
Definition is_nullish (v : JsValue) : bool :=
  match v with JUndefined | JNull => true | _ => false end.

(** A non-null object: what the specification calls a populated value. *)
Definition is_object (v : JsValue) : bool :=
  match v with JArray _ | JObject _ => true | _ => false end.

(** Truthiness, as tested by the conditional operator. *)
Definition truthy (v : JsValue) : bool :=
  match v with
  | JUndefined | JNull => false
  | JBool b => b
  | JNumber n => negb (n =? 0)%Z
  | JString s => negb (s =? EmptyString)
  | JArray _ | JObject _ => true
  end.

(** [o[k]] on an object: the property's value, [undefined] when the
    object has no such property. *)
Fixpoint obj_get (o : JsObj) (k : string) : JsValue :=
  match o with
  | [] => JUndefined
  | (k', v) :: rest => if k' =? k then v else obj_get rest k
  end.

Definition keys (o : JsObj) : list string := map fst o.

(** Reading a named data property off a value that is known not to be
    nullish.  Primitives and arrays carry none of the property names
    the source reads ([chat], [from], [id], [message], ...), so the
    lookup yields [undefined] there. *)
Definition prop (v : JsValue) (k : string) : JsValue :=
  match v with
  | JObject o => obj_get o k
  | _ => JUndefined
  end.

(** [a ?? b]. *)
Definition coalesce (a b : JsValue) : JsValue :=
  if is_nullish a then b else a.

(** [v?.k]. *)
Definition opt_prop (v : JsValue) (k : string) : JsValue :=
  if is_nullish v then JUndefined else prop v k.

(** [o[k] = v]: overwrite in place, or append a new property. *)
Fixpoint obj_set (o : JsObj) (k : string) (v : JsValue) : JsObj :=
  match o with
  | [] => [(k, v)]
  | (k', v') :: rest =>
      if k' =? k then (k', v) :: rest else (k', v') :: obj_set rest k v
  end.

(** [{ ...base, ...src }] once [base] has been built: for each key of
    [src] in order, [base[key] = src[key]]. *)
Definition assign (base src : JsObj) : JsObj :=
  fold_left (fun acc k => obj_set acc k (obj_get src k)) (keys src) base.

(** [...extra] inside an object literal, where [extra] is an optional
    parameter: an omitted argument spreads nothing. *)
Definition spread (base : JsObj) (extra : option JsObj) : JsObj :=
  match extra with
  | Some e => assign base e
  | None => base
  end.

Definition has_key (o : JsObj) (k : string) : bool :=
  existsb (fun k' => k' =? k) (keys o).

End Js.

Export Js.

Declare Scope js_scope.
Delimit Scope js_scope with js.
Notation "a ?? b" := (coalesce a b) (at level 45, left associativity) : js_scope.
Notation "v ?. k" := (opt_prop v k) (at level 25, left associativity) : js_scope.
Open Scope js_scope.

(** ** The context and its errors *)

(** The update a [Context] wraps. *)
Definition Update : Type := JsObj.

(** [new Context(update, telegram, botInfo)].  The [telegram] capability
    is not a field here: the calls made on it are threaded through the
    operations as a log (see [M] below). *)
Record Context : Type := mkContext {
  update : Update;
  botInfo : JsValue
}.

(** The errors the context code can throw. *)
Inductive JsError : Type :=
| ClassificationError (u : Update)
    (* Error: Cannot determine `updateType` of <JSON.stringify(update)> *)
| UsageError (method kind : string)
    (* TypeError: Telegraf: "<method>" isn't available for "<kind>" *)
| NullReference (property : string).
    (* TypeError: Cannot read properties of null/undefined (reading '<property>') *)

(** ** The update classifier *)

(** The [for (const key in this.update)] loop of the [updateType]
    getter, over the keys still to visit. *)
Fixpoint updateType_loop (u : Update) (todo : list string) : option string :=
  match todo with
  | [] => None
  | key :: rest =>
      if typeof (obj_get u key) =? "object" then Some key
      else updateType_loop u rest
  end.

Definition updateType (ctx : Context) : JsError + string :=
  match updateType_loop (update ctx) (keys (update ctx)) with
  | Some key => inr key
  | None => inl (ClassificationError (update ctx))
  end.

(** ** Raw projections of the update *)

Definition me (ctx : Context) : JsValue := botInfo ctx ?. "username".
Definition message (ctx : Context) : JsValue := obj_get (update ctx) "message".
Definition editedMessage (ctx : Context) : JsValue := obj_get (update ctx) "edited_message".
Definition inlineQuery (ctx : Context) : JsValue := obj_get (update ctx) "inline_query".
Definition shippingQuery (ctx : Context) : JsValue := obj_get (update ctx) "shipping_query".
Definition preCheckoutQuery (ctx : Context) : JsValue :=
  obj_get (update ctx) "pre_checkout_query".
Definition chosenInlineResult (ctx : Context) : JsValue :=
  obj_get (update ctx) "chosen_inline_result".
Definition channelPost (ctx : Context) : JsValue := obj_get (update ctx) "channel_post".
Definition editedChannelPost (ctx : Context) : JsValue :=
  obj_get (update ctx) "edited_channel_post".
Definition callbackQuery (ctx : Context) : JsValue := obj_get (update ctx) "callback_query".
Definition poll (ctx : Context) : JsValue := obj_get (update ctx) "poll".
Definition pollAnswer (ctx : Context) : JsValue := obj_get (update ctx) "poll_answer".
Definition myChatMember (ctx : Context) : JsValue := obj_get (update ctx) "my_chat_member".
Definition chatMember (ctx : Context) : JsValue := obj_get (update ctx) "chat_member".
Definition chatJoinRequest (ctx : Context) : JsValue :=
  obj_get (update ctx) "chat_join_request".

(** ** Resolved accessors *)

Definition getMessageFromAnySource (ctx : Context) : JsValue :=
  message ctx ??
  editedMessage ctx ??
  callbackQuery ctx ?. "message" ??
  channelPost ctx ??
  editedChannelPost ctx.

Definition chat (ctx : Context) : JsValue :=
  (chatMember ctx ??
   myChatMember ctx ??
   chatJoinRequest ctx ??
   getMessageFromAnySource ctx) ?. "chat".

Definition senderChat (ctx : Context) : JsValue :=
  getMessageFromAnySource ctx ?. "sender_chat".

Definition from (ctx : Context) : JsValue :=
  (callbackQuery ctx ??
   inlineQuery ctx ??
   shippingQuery ctx ??
   preCheckoutQuery ctx ??
   chosenInlineResult ctx ??
   chatMember ctx ??
   myChatMember ctx ??
   chatJoinRequest ctx ??
   getMessageFromAnySource ctx) ?. "from".

Definition inlineMessageId (ctx : Context) : JsValue :=
  (callbackQuery ctx ?? chosenInlineResult ctx) ?. "inline_message_id".

(** [const getThreadId = (msg) => msg?.is_topic_message ? msg.message_thread_id : undefined] *)
Definition getThreadId (msg : JsValue) : JsValue :=
  if truthy (msg ?. "is_topic_message") then prop msg "message_thread_id"
  else JUndefined.

(** ** Calls on the outbound transport *)

(** One invocation [this.telegram.<operation>(...arguments)]. *)
Record Call : Type := mkCall {
  operation : string;
  arguments : list JsValue
}.

(** A context operation runs against the log of transport calls made so
    far; it either throws or returns, and hands back the log. *)
Definition M (A : Type) : Type := list Call -> (JsError + A) * list Call.

Definition ret {A : Type} (a : A) : M A := fun calls => (inr a, calls).

Definition throw {A : Type} (e : JsError) : M A := fun calls => (inl e, calls).

Definition bind {A B : Type} (m : M A) (f : A -> M B) : M B :=
  fun calls =>
    match m calls with
    | (inl e, calls') => (inl e, calls')
    | (inr a, calls') => f a calls'
    end.

Definition lift {A : Type} (r : JsError + A) : M A := fun calls => (r, calls).

Notation "x <- m ;; k" := (bind m (fun x => k))
  (at level 61, m at next level, right associativity) : js_scope.
Notation "m ;; k" := (bind m (fun _ => k))
  (at level 61, right associativity) : js_scope.

(** [this.telegram.<operation>(...arguments)]: the call is made, and
    what the operation returns is the pending result of that call. *)
Definition telegram (operation : string) (arguments : list JsValue) : M Call :=
  fun calls => let c := mkCall operation arguments in (inr c, calls ++ [c]).

(** [v.k], which throws on [null] and [undefined]. *)
Definition member (v : JsValue) (k : string) : M JsValue :=
  if is_nullish v then throw (NullReference k) else ret (prop v k).

(** [Context.assert]: building the message reads [this.updateType],
    which may itself throw. *)
Definition assert (ctx : Context) (value : JsValue) (method : string) : M unit :=
  if is_undefined value then
    kind <- lift (updateType ctx) ;;
    throw (UsageError method kind)
  else ret tt.

(** ** Convenience operations *)

(** *** Operations guarded on one derived field

    [this.assert(this.<field>, '<method>');
     return this.telegram.<method>(this.<field>.id, ...args)] *)
Definition shorthand (field : Context -> JsValue) (method : string)
    (ctx : Context) (args : list JsValue) : M Call :=
  assert ctx (field ctx) method ;;
  id <- member (field ctx) "id" ;;
  telegram method (id :: args).

Definition answerInlineQuery := shorthand inlineQuery "answerInlineQuery".
Definition answerCbQuery := shorthand callbackQuery "answerCbQuery".
Definition answerGameQuery := shorthand callbackQuery "answerGameQuery".
Definition answerShippingQuery := shorthand shippingQuery "answerShippingQuery".
Definition answerPreCheckoutQuery := shorthand preCheckoutQuery "answerPreCheckoutQuery".

Definition getChat := shorthand chat "getChat".
Definition exportChatInviteLink := shorthand chat "exportChatInviteLink".
Definition createChatInviteLink := shorthand chat "createChatInviteLink".
Definition editChatInviteLink := shorthand chat "editChatInviteLink".
Definition revokeChatInviteLink := shorthand chat "revokeChatInviteLink".
Definition banChatMember := shorthand chat "banChatMember".
Definition unbanChatMember := shorthand chat "unbanChatMember".
Definition restrictChatMember := shorthand chat "restrictChatMember".
Definition promoteChatMember := shorthand chat "promoteChatMember".
Definition setChatAdministratorCustomTitle :=
  shorthand chat "setChatAdministratorCustomTitle".
Definition setChatPhoto := shorthand chat "setChatPhoto".
Definition deleteChatPhoto := shorthand chat "deleteChatPhoto".
Definition setChatTitle := shorthand chat "setChatTitle".
Definition setChatDescription := shorthand chat "setChatDescription".
Definition pinChatMessage := shorthand chat "pinChatMessage".
Definition unpinChatMessage := shorthand chat "unpinChatMessage".
Definition unpinAllChatMessages := shorthand chat "unpinAllChatMessages".
Definition leaveChat := shorthand chat "leaveChat".
Definition setChatPermissions := shorthand chat "setChatPermissions".
Definition getChatAdministrators := shorthand chat "getChatAdministrators".
Definition getChatMember := shorthand chat "getChatMember".
Definition getChatMembersCount := shorthand chat "getChatMembersCount".
Definition stopPoll := shorthand chat "stopPoll".
Definition sendChatAction := shorthand chat "sendChatAction".
Definition createForumTopic := shorthand chat "createForumTopic".

Definition setPassportDataErrors (ctx : Context) (errors : JsValue) :=
  shorthand from "setPassportDataErrors" ctx [errors].
Definition uploadStickerFile := shorthand from "uploadStickerFile".
Definition createNewStickerSet := shorthand from "createNewStickerSet".
Definition addStickerToSet := shorthand from "addStickerToSet".

Definition setChatStickerSet (ctx : Context) (setName : JsValue) :=
  shorthand chat "setChatStickerSet" ctx [setName].
Definition deleteChatStickerSet (ctx : Context) :=
  shorthand chat "deleteChatStickerSet" ctx [].
Definition approveChatJoinRequest (ctx : Context) (userId : JsValue) :=
  shorthand chat "approveChatJoinRequest" ctx [userId].
Definition declineChatJoinRequest (ctx : Context) (userId : JsValue) :=
  shorthand chat "declineChatJoinRequest" ctx [userId].
Definition banChatSenderChat (ctx : Context) (senderChatId : JsValue) :=
  shorthand chat "banChatSenderChat" ctx [senderChatId].
Definition unbanChatSenderChat (ctx : Context) (senderChatId : JsValue) :=
  shorthand chat "unbanChatSenderChat" ctx [senderChatId].

(** The two menu-button operations pass the chat id inside an object. *)
Definition setChatMenuButton (ctx : Context) (menuButton : JsValue) : M Call :=
  assert ctx (chat ctx) "setChatMenuButton" ;;
  id <- member (chat ctx) "id" ;;
  telegram "setChatMenuButton" [JObject [("chatId", id); ("menuButton", menuButton)]].

Definition getChatMenuButton (ctx : Context) : M Call :=
  assert ctx (chat ctx) "getChatMenuButton" ;;
  id <- member (chat ctx) "id" ;;
  telegram "getChatMenuButton" [JObject [("chatId", id)]].

(** *** Send operations

    [this.assert(this.chat, '<method>');
     return this.telegram.<method>(this.chat.id, ...args,
       { message_thread_id: getThreadId(this.message), ...extra })] *)
Definition send (method : string) (ctx : Context) (args : list JsValue)
    (extra : option JsObj) : M Call :=
  assert ctx (chat ctx) method ;;
  id <- member (chat ctx) "id" ;;
  telegram method
    (id :: args ++
     [JObject (spread [("message_thread_id", getThreadId (message ctx))] extra)]).

Definition sendMessage ctx (text : JsValue) extra := send "sendMessage" ctx [text] extra.
Definition sendPhoto ctx (photo : JsValue) extra := send "sendPhoto" ctx [photo] extra.
Definition sendMediaGroup ctx (media : JsValue) extra :=
  send "sendMediaGroup" ctx [media] extra.
Definition sendAudio ctx (audio : JsValue) extra := send "sendAudio" ctx [audio] extra.
Definition sendDice ctx extra := send "sendDice" ctx [] extra.
Definition sendDocument ctx (document : JsValue) extra :=
  send "sendDocument" ctx [document] extra.
Definition sendSticker ctx (sticker : JsValue) extra :=
  send "sendSticker" ctx [sticker] extra.
Definition sendVideo ctx (video : JsValue) extra := send "sendVideo" ctx [video] extra.
Definition sendAnimation ctx (animation : JsValue) extra :=
  send "sendAnimation" ctx [animation] extra.
Definition sendVideoNote ctx (videoNote : JsValue) extra :=
  send "sendVideoNote" ctx [videoNote] extra.
Definition sendInvoice ctx (invoice : JsValue) extra :=
  send "sendInvoice" ctx [invoice] extra.
Definition sendGame ctx (game : JsValue) extra := send "sendGame" ctx [game] extra.
Definition sendVoice ctx (voice : JsValue) extra := send "sendVoice" ctx [voice] extra.
Definition sendPoll ctx (poll options : JsValue) extra :=
  send "sendPoll" ctx [poll; options] extra.
Definition sendQuiz ctx (quiz options : JsValue) extra :=
  send "sendQuiz" ctx [quiz; options] extra.
Definition sendLocation ctx (latitude longitude : JsValue) extra :=
  send "sendLocation" ctx [latitude; longitude] extra.
Definition sendVenue ctx (latitude longitude title address : JsValue) extra :=
  send "sendVenue" ctx [latitude; longitude; title; address] extra.
Definition sendContact ctx (phoneNumber firstName : JsValue) extra :=
  send "sendContact" ctx [phoneNumber; firstName] extra.

(** *** Reply operations

    [const reply_to_message_id = getMessageFromAnySource(this)?.message_id]
    and the object literal [{ reply_to_message_id, ...extra }]. *)
Definition reply_extra (ctx : Context) (extra : option JsObj) : option JsObj :=
  let reply_to_message_id := getMessageFromAnySource ctx ?. "message_id" in
  Some (spread [("reply_to_message_id", reply_to_message_id)] extra).

Definition reply ctx text extra := sendMessage ctx text (reply_extra ctx extra).
Definition replyWithPhoto ctx photo extra := sendPhoto ctx photo (reply_extra ctx extra).
Definition replyWithMediaGroup ctx media extra :=
  sendMediaGroup ctx media (reply_extra ctx extra).
Definition replyWithAudio ctx audio extra := sendAudio ctx audio (reply_extra ctx extra).
Definition replyWithDice ctx extra := sendDice ctx (reply_extra ctx extra).
Definition replyWithDocument ctx document extra :=
  sendDocument ctx document (reply_extra ctx extra).
Definition replyWithSticker ctx sticker extra :=
  sendSticker ctx sticker (reply_extra ctx extra).
Definition replyWithVideo ctx video extra := sendVideo ctx video (reply_extra ctx extra).
Definition replyWithAnimation ctx animation extra :=
  sendAnimation ctx animation (reply_extra ctx extra).
Definition replyWithVideoNote ctx videoNote extra :=
  sendVideoNote ctx videoNote (reply_extra ctx extra).
Definition replyWithInvoice ctx invoice extra :=
  sendInvoice ctx invoice (reply_extra ctx extra).
Definition replyWithGame ctx gameName extra :=
  sendGame ctx gameName (reply_extra ctx extra).
Definition replyWithVoice ctx voice extra := sendVoice ctx voice (reply_extra ctx extra).
Definition replyWithPoll ctx question options extra :=
  sendPoll ctx question options (reply_extra ctx extra).
Definition replyWithQuiz ctx question options extra :=
  sendQuiz ctx question options (reply_extra ctx extra).
Definition replyWithLocation ctx latitude longitude extra :=
  sendLocation ctx latitude longitude (reply_extra ctx extra).
Definition replyWithVenue ctx latitude longitude title address extra :=
  sendVenue ctx latitude longitude title address (reply_extra ctx extra).
Definition replyWithContact ctx phoneNumber firstName extra :=
  sendContact ctx phoneNumber firstName (reply_extra ctx extra).

(** [this.reply(text, { parse_mode: '<mode>', ...extra })] *)
Definition replyWithMarkdown ctx markdown extra :=
  reply ctx markdown (Some (spread [("parse_mode", JString "Markdown")] extra)).
Definition replyWithMarkdownV2 ctx markdown extra :=
  reply ctx markdown (Some (spread [("parse_mode", JString "MarkdownV2")] extra)).
Definition replyWithHTML ctx html extra :=
  reply ctx html (Some (spread [("parse_mode", JString "HTML")] extra)).

(** *** Edit operations

    [this.assert(this.callbackQuery ?? this.inlineMessageId, '<method>');
     return this.telegram.<method>(this.chat?.id,
       this.callbackQuery?.message?.message_id, this.inlineMessageId, ...rest)] *)
Definition edit (method : string) (ctx : Context) (rest : list JsValue) : M Call :=
  assert ctx (callbackQuery ctx ?? inlineMessageId ctx) method ;;
  telegram method
    ([chat ctx ?. "id";
      callbackQuery ctx ?. "message" ?. "message_id";
      inlineMessageId ctx] ++ rest).

Definition editMessageText ctx (text extra : JsValue) :=
  edit "editMessageText" ctx [text; extra].
Definition editMessageCaption ctx (caption extra : JsValue) :=
  edit "editMessageCaption" ctx [caption; extra].
Definition editMessageMedia ctx (media extra : JsValue) :=
  edit "editMessageMedia" ctx [media; extra].
Definition editMessageReplyMarkup ctx (markup : JsValue) :=
  edit "editMessageReplyMarkup" ctx [markup].
Definition editMessageLiveLocation ctx (latitude longitude extra : JsValue) :=
  edit "editMessageLiveLocation" ctx [latitude; longitude; extra].
Definition stopMessageLiveLocation ctx (markup : JsValue) :=
  edit "stopMessageLiveLocation" ctx [markup].

(** *** Forum-topic operations on an existing topic

    [this.assert(this.chat, '<method>');
     this.assert(this.message?.message_thread_id, '<method>');
     return this.telegram.<method>(this.chat.id,
       this.message.message_thread_id, ...rest)] *)
Definition forumTopic (method : string) (ctx : Context) (rest : list JsValue) : M Call :=
  assert ctx (chat ctx) method ;;
  assert ctx (message ctx ?. "message_thread_id") method ;;
  id <- member (chat ctx) "id" ;;
  thread <- member (message ctx) "message_thread_id" ;;
  telegram method ([id; thread] ++ rest).

Definition editForumTopic ctx (extra : JsValue) := forumTopic "editForumTopic" ctx [extra].
Definition closeForumTopic ctx := forumTopic "closeForumTopic" ctx [].
Definition reopenForumTopic ctx := forumTopic "reopenForumTopic" ctx [].
Definition deleteForumTopic ctx := forumTopic "deleteForumTopic" ctx [].
Definition unpinAllForumTopicMessages ctx := forumTopic "unpinAllForumTopicMessages" ctx [].

(** *** Operations on the resolved message *)

Definition deleteMessage (ctx : Context) (messageId : JsValue) : M Call :=
  assert ctx (chat ctx) "deleteMessage" ;;
  if negb (typeof messageId =? "undefined") then
    id <- member (chat ctx) "id" ;;
    telegram "deleteMessage" [id; messageId]
  else
    let message := getMessageFromAnySource ctx in
    assert ctx message "deleteMessage" ;;
    id <- member (chat ctx) "id" ;;
    message_id <- member message "message_id" ;;
    telegram "deleteMessage" [id; message_id].

Definition forwardMessage (ctx : Context) (chatId extra : JsValue) : M Call :=
  let message := getMessageFromAnySource ctx in
  assert ctx message "forwardMessage" ;;
  message_chat <- member message "chat" ;;
  id <- member message_chat "id" ;;
  message_id <- member message "message_id" ;;
  telegram "forwardMessage" [chatId; id; message_id; extra].

Definition copyMessage (ctx : Context) (chatId extra : JsValue) : M Call :=
  let message := getMessageFromAnySource ctx in
  assert ctx message "copyMessage" ;;
  message_chat <- member message "chat" ;;
  id <- member message_chat "id" ;;
  message_id <- member message "message_id" ;;
  telegram "copyMessage" [chatId; id; message_id; extra].

(** ** The webhook ingestion adapter *)

(** What [req.body] may hold when the adapter is entered: a [Buffer], or
    any other value ([undefined] when nothing was attached). *)
Inductive Body : Type :=
| BodyBuffer (bytes : list Byte.byte)
| BodyValue (v : JsValue).

Record IncomingMessage : Type := mkRequest {
  body : Body;
  stream : list Byte.byte   (* what the body stream will deliver *)
}.

(** The response: its status code and how many times [end()] has been
    called on it. *)
Record ServerResponse : Type := mkResponse {
  statusCode : Z;
  endCalls : nat
}.

(** [res.writableEnded]: true once [end()] has been called. *)
Definition writableEnded (res : ServerResponse) : bool := negb (endCalls res =? 0)%nat.

(** [res.end()] *)
Definition end_ (res : ServerResponse) : ServerResponse :=
  mkResponse (statusCode res) (S (endCalls res)).

(** [res.statusCode = code]: a plain assignment, which never throws. *)
Definition setStatusCode (code : Z) (res : ServerResponse) : ServerResponse :=
  mkResponse code (endCalls res).

(** What [writeHead] throws once the headers have gone out. *)
Definition headersSentError : JsValue :=
  JObject [("code", JString "ERR_HTTP_HEADERS_SENT")].

(** [res.writeHead(code, {})]: sets the status, unless the headers have
    already been sent, in which case it throws ([None]).  In this model
    of the response the headers have been sent exactly when [end()] has
    been called. *)
Definition writeHead (code : Z) (res : ServerResponse) : option ServerResponse :=
  if writableEnded res then None else Some (mkResponse code (endCalls res)).

(** What a handler may do to the response while it runs. *)
Inductive ResponseAction : Type :=
| SetStatus (code : Z)
| End.

Definition perform (res : ServerResponse) (a : ResponseAction) : ServerResponse :=
  match a with
  | SetStatus code => setStatusCode code res
  | End => end_ res
  end.

(** One run of [updateHandler(update)] that settles: what it did to the
    response, and the value it threw or rejected with, if any. *)
Record HandlerRun : Type := mkRun {
  actions : list ResponseAction;
  thrown : option JsValue
}.

(** How one request ended: the response, the updates the handler was
    invoked with, and the exception the adapter's caller sees, if any. *)
Record Outcome : Type := mkOutcome {
  response : ServerResponse;
  dispatched : list JsValue;
  raised : option JsValue
}.

(** The default [next]: status 403, end the response. *)
Definition defaultNext (res : ServerResponse) : ServerResponse :=
  end_ (setStatusCode 403 res).

Section Webhook.

(** [JSON.parse]: [None] when it throws. *)
Variable JSON_parse : string -> option JsValue.
(** [String(buffer)]: decoding a [Buffer] as text never throws. *)
Variable bufferToString : list Byte.byte -> string.
(** [json(req)] of stream-consumers: [None] when the promise rejects. *)
Variable json : list Byte.byte -> option JsValue.

(** The first [try] block: [None] stands for control reaching [catch]. *)
Definition parseBody (req : IncomingMessage) : option JsValue :=
  match body req with
  | BodyValue v =>
      if is_nullish v then json (stream req)
      else match v with
           | JString s => JSON_parse s
           | _ => Some v
           end
  | BodyBuffer bytes => JSON_parse (bufferToString bytes)
  end.

Definition generateWebhook
    (filter : IncomingMessage -> bool)
    (updateHandler : JsValue -> HandlerRun)
    (req : IncomingMessage) (res : ServerResponse)
    (next : ServerResponse -> ServerResponse) : Outcome :=
  if negb (filter req) then mkOutcome (next res) [] None
  else
    match parseBody req with
    | None =>
        (* the [catch] block; a throw inside it rejects the adapter *)
        match writeHead 415 res with
        | Some res' => mkOutcome (end_ res') [] None
        | None => mkOutcome res [] (Some headersSentError)
        end
    | Some update =>
        let run := updateHandler update in
        let res' := fold_left perform (actions run) res in
        mkOutcome (if negb (writableEnded res') then end_ res' else res')
                  [update] (thrown run)
    end.

End Webhook.

(** ** The operations, by family

    JavaScript passes a method its arguments as a list; a parameter the
    caller left out is [undefined]. *)
Definition arg (i : nat) (args : list JsValue) : JsValue := nth i args JUndefined.

(** The first [arity] positional arguments of a call. *)
Definition positional (arity : nat) (args : list JsValue) : list JsValue :=
  map (fun i => arg i args) (seq 0 arity).

(** An operation guarded on one derived field: the method, the transport
    operation it ends in (which is also the name its guard reports), the
    field it requires, and the method itself applied to positional
    arguments and an optional trailing [extra]. *)
Record Guarded : Type := mkGuarded {
  g_method : string;
  g_operation : string;
  g_field : Context -> JsValue;
  g_run : Context -> list JsValue -> option JsObj -> M Call
}.

Definition guardedOperations : list Guarded := [
  mkGuarded "answerInlineQuery" "answerInlineQuery" inlineQuery
    (fun ctx a _ => answerInlineQuery ctx a);
  mkGuarded "answerCbQuery" "answerCbQuery" callbackQuery
    (fun ctx a _ => answerCbQuery ctx a);
  mkGuarded "answerGameQuery" "answerGameQuery" callbackQuery
    (fun ctx a _ => answerGameQuery ctx a);
  mkGuarded "answerShippingQuery" "answerShippingQuery" shippingQuery
    (fun ctx a _ => answerShippingQuery ctx a);
  mkGuarded "answerPreCheckoutQuery" "answerPreCheckoutQuery" preCheckoutQuery
    (fun ctx a _ => answerPreCheckoutQuery ctx a);
  mkGuarded "getChat" "getChat" chat
    (fun ctx a _ => getChat ctx a);
  mkGuarded "exportChatInviteLink" "exportChatInviteLink" chat
    (fun ctx a _ => exportChatInviteLink ctx a);
  mkGuarded "createChatInviteLink" "createChatInviteLink" chat
    (fun ctx a _ => createChatInviteLink ctx a);
  mkGuarded "editChatInviteLink" "editChatInviteLink" chat
    (fun ctx a _ => editChatInviteLink ctx a);
  mkGuarded "revokeChatInviteLink" "revokeChatInviteLink" chat
    (fun ctx a _ => revokeChatInviteLink ctx a);
  mkGuarded "banChatMember" "banChatMember" chat
    (fun ctx a _ => banChatMember ctx a);
  mkGuarded "unbanChatMember" "unbanChatMember" chat
    (fun ctx a _ => unbanChatMember ctx a);
  mkGuarded "restrictChatMember" "restrictChatMember" chat
    (fun ctx a _ => restrictChatMember ctx a);
  mkGuarded "promoteChatMember" "promoteChatMember" chat
    (fun ctx a _ => promoteChatMember ctx a);
  mkGuarded "setChatAdministratorCustomTitle" "setChatAdministratorCustomTitle" chat
    (fun ctx a _ => setChatAdministratorCustomTitle ctx a);
  mkGuarded "setChatPhoto" "setChatPhoto" chat
    (fun ctx a _ => setChatPhoto ctx a);
  mkGuarded "deleteChatPhoto" "deleteChatPhoto" chat
    (fun ctx a _ => deleteChatPhoto ctx a);
  mkGuarded "setChatTitle" "setChatTitle" chat
    (fun ctx a _ => setChatTitle ctx a);
  mkGuarded "setChatDescription" "setChatDescription" chat
    (fun ctx a _ => setChatDescription ctx a);
  mkGuarded "pinChatMessage" "pinChatMessage" chat
    (fun ctx a _ => pinChatMessage ctx a);
  mkGuarded "unpinChatMessage" "unpinChatMessage" chat
    (fun ctx a _ => unpinChatMessage ctx a);
  mkGuarded "unpinAllChatMessages" "unpinAllChatMessages" chat
    (fun ctx a _ => unpinAllChatMessages ctx a);
  mkGuarded "leaveChat" "leaveChat" chat
    (fun ctx a _ => leaveChat ctx a);
  mkGuarded "setChatPermissions" "setChatPermissions" chat
    (fun ctx a _ => setChatPermissions ctx a);
  mkGuarded "getChatAdministrators" "getChatAdministrators" chat
    (fun ctx a _ => getChatAdministrators ctx a);
  mkGuarded "getChatMember" "getChatMember" chat
    (fun ctx a _ => getChatMember ctx a);
  mkGuarded "getChatMembersCount" "getChatMembersCount" chat
    (fun ctx a _ => getChatMembersCount ctx a);
  mkGuarded "stopPoll" "stopPoll" chat
    (fun ctx a _ => stopPoll ctx a);
  mkGuarded "sendChatAction" "sendChatAction" chat
    (fun ctx a _ => sendChatAction ctx a);
  mkGuarded "createForumTopic" "createForumTopic" chat
    (fun ctx a _ => createForumTopic ctx a);
  mkGuarded "setPassportDataErrors" "setPassportDataErrors" from
    (fun ctx a _ => setPassportDataErrors ctx (arg 0 a));
  mkGuarded "uploadStickerFile" "uploadStickerFile" from
    (fun ctx a _ => uploadStickerFile ctx a);
  mkGuarded "createNewStickerSet" "createNewStickerSet" from
    (fun ctx a _ => createNewStickerSet ctx a);
  mkGuarded "addStickerToSet" "addStickerToSet" from
    (fun ctx a _ => addStickerToSet ctx a);
  mkGuarded "setChatStickerSet" "setChatStickerSet" chat
    (fun ctx a _ => setChatStickerSet ctx (arg 0 a));
  mkGuarded "deleteChatStickerSet" "deleteChatStickerSet" chat
    (fun ctx a _ => deleteChatStickerSet ctx);
  mkGuarded "approveChatJoinRequest" "approveChatJoinRequest" chat
    (fun ctx a _ => approveChatJoinRequest ctx (arg 0 a));
  mkGuarded "declineChatJoinRequest" "declineChatJoinRequest" chat
    (fun ctx a _ => declineChatJoinRequest ctx (arg 0 a));
  mkGuarded "banChatSenderChat" "banChatSenderChat" chat
    (fun ctx a _ => banChatSenderChat ctx (arg 0 a));
  mkGuarded "unbanChatSenderChat" "unbanChatSenderChat" chat
    (fun ctx a _ => unbanChatSenderChat ctx (arg 0 a));
  mkGuarded "setChatMenuButton" "setChatMenuButton" chat
    (fun ctx a _ => setChatMenuButton ctx (arg 0 a));
  mkGuarded "getChatMenuButton" "getChatMenuButton" chat
    (fun ctx a _ => getChatMenuButton ctx);
  mkGuarded "sendMessage" "sendMessage" chat
    (fun ctx a e => sendMessage ctx (arg 0 a) e);
  mkGuarded "sendPhoto" "sendPhoto" chat
    (fun ctx a e => sendPhoto ctx (arg 0 a) e);
  mkGuarded "sendMediaGroup" "sendMediaGroup" chat
    (fun ctx a e => sendMediaGroup ctx (arg 0 a) e);
  mkGuarded "sendAudio" "sendAudio" chat
    (fun ctx a e => sendAudio ctx (arg 0 a) e);
  mkGuarded "sendDice" "sendDice" chat
    (fun ctx a e => sendDice ctx e);
  mkGuarded "sendDocument" "sendDocument" chat
    (fun ctx a e => sendDocument ctx (arg 0 a) e);
  mkGuarded "sendSticker" "sendSticker" chat
    (fun ctx a e => sendSticker ctx (arg 0 a) e);
  mkGuarded "sendVideo" "sendVideo" chat
    (fun ctx a e => sendVideo ctx (arg 0 a) e);
  mkGuarded "sendAnimation" "sendAnimation" chat
    (fun ctx a e => sendAnimation ctx (arg 0 a) e);
  mkGuarded "sendVideoNote" "sendVideoNote" chat
    (fun ctx a e => sendVideoNote ctx (arg 0 a) e);
  mkGuarded "sendInvoice" "sendInvoice" chat
    (fun ctx a e => sendInvoice ctx (arg 0 a) e);
  mkGuarded "sendGame" "sendGame" chat
    (fun ctx a e => sendGame ctx (arg 0 a) e);
  mkGuarded "sendVoice" "sendVoice" chat
    (fun ctx a e => sendVoice ctx (arg 0 a) e);
  mkGuarded "sendPoll" "sendPoll" chat
    (fun ctx a e => sendPoll ctx (arg 0 a) (arg 1 a) e);
  mkGuarded "sendQuiz" "sendQuiz" chat
    (fun ctx a e => sendQuiz ctx (arg 0 a) (arg 1 a) e);
  mkGuarded "sendLocation" "sendLocation" chat
    (fun ctx a e => sendLocation ctx (arg 0 a) (arg 1 a) e);
  mkGuarded "sendVenue" "sendVenue" chat
    (fun ctx a e => sendVenue ctx (arg 0 a) (arg 1 a) (arg 2 a) (arg 3 a) e);
  mkGuarded "sendContact" "sendContact" chat
    (fun ctx a e => sendContact ctx (arg 0 a) (arg 1 a) e);
  mkGuarded "reply" "sendMessage" chat
    (fun ctx a e => reply ctx (arg 0 a) e);
  mkGuarded "replyWithPhoto" "sendPhoto" chat
    (fun ctx a e => replyWithPhoto ctx (arg 0 a) e);
  mkGuarded "replyWithMediaGroup" "sendMediaGroup" chat
    (fun ctx a e => replyWithMediaGroup ctx (arg 0 a) e);
  mkGuarded "replyWithAudio" "sendAudio" chat
    (fun ctx a e => replyWithAudio ctx (arg 0 a) e);
  mkGuarded "replyWithDice" "sendDice" chat
    (fun ctx a e => replyWithDice ctx e);
  mkGuarded "replyWithDocument" "sendDocument" chat
    (fun ctx a e => replyWithDocument ctx (arg 0 a) e);
  mkGuarded "replyWithSticker" "sendSticker" chat
    (fun ctx a e => replyWithSticker ctx (arg 0 a) e);
  mkGuarded "replyWithVideo" "sendVideo" chat
    (fun ctx a e => replyWithVideo ctx (arg 0 a) e);
  mkGuarded "replyWithAnimation" "sendAnimation" chat
    (fun ctx a e => replyWithAnimation ctx (arg 0 a) e);
  mkGuarded "replyWithVideoNote" "sendVideoNote" chat
    (fun ctx a e => replyWithVideoNote ctx (arg 0 a) e);
  mkGuarded "replyWithInvoice" "sendInvoice" chat
    (fun ctx a e => replyWithInvoice ctx (arg 0 a) e);
  mkGuarded "replyWithGame" "sendGame" chat
    (fun ctx a e => replyWithGame ctx (arg 0 a) e);
  mkGuarded "replyWithVoice" "sendVoice" chat
    (fun ctx a e => replyWithVoice ctx (arg 0 a) e);
  mkGuarded "replyWithPoll" "sendPoll" chat
    (fun ctx a e => replyWithPoll ctx (arg 0 a) (arg 1 a) e);
  mkGuarded "replyWithQuiz" "sendQuiz" chat
    (fun ctx a e => replyWithQuiz ctx (arg 0 a) (arg 1 a) e);
  mkGuarded "replyWithLocation" "sendLocation" chat
    (fun ctx a e => replyWithLocation ctx (arg 0 a) (arg 1 a) e);
  mkGuarded "replyWithVenue" "sendVenue" chat
    (fun ctx a e => replyWithVenue ctx (arg 0 a) (arg 1 a) (arg 2 a) (arg 3 a) e);
  mkGuarded "replyWithContact" "sendContact" chat
    (fun ctx a e => replyWithContact ctx (arg 0 a) (arg 1 a) e);
  mkGuarded "replyWithMarkdown" "sendMessage" chat
    (fun ctx a e => replyWithMarkdown ctx (arg 0 a) e);
  mkGuarded "replyWithMarkdownV2" "sendMessage" chat
    (fun ctx a e => replyWithMarkdownV2 ctx (arg 0 a) e);
  mkGuarded "replyWithHTML" "sendMessage" chat
    (fun ctx a e => replyWithHTML ctx (arg 0 a) e)
].

(** A reply operation: the method, the transport operation it ends in,
    the number of arguments before [extra], the parameters the method
    itself puts under the caller's extras, and the method. *)
Record Reply : Type := mkReply {
  r_method : string;
  r_operation : string;
  r_arity : nat;
  r_defaults : JsObj;
  r_run : Context -> list JsValue -> option JsObj -> M Call
}.

Definition replyOperations : list Reply := [
  mkReply "reply" "sendMessage" 1 []
    (fun ctx a e => reply ctx (arg 0 a) e);
  mkReply "replyWithPhoto" "sendPhoto" 1 []
    (fun ctx a e => replyWithPhoto ctx (arg 0 a) e);
  mkReply "replyWithMediaGroup" "sendMediaGroup" 1 []
    (fun ctx a e => replyWithMediaGroup ctx (arg 0 a) e);
  mkReply "replyWithAudio" "sendAudio" 1 []
    (fun ctx a e => replyWithAudio ctx (arg 0 a) e);
  mkReply "replyWithDice" "sendDice" 0 []
    (fun ctx a e => replyWithDice ctx e);
  mkReply "replyWithDocument" "sendDocument" 1 []
    (fun ctx a e => replyWithDocument ctx (arg 0 a) e);
  mkReply "replyWithSticker" "sendSticker" 1 []
    (fun ctx a e => replyWithSticker ctx (arg 0 a) e);
  mkReply "replyWithVideo" "sendVideo" 1 []
    (fun ctx a e => replyWithVideo ctx (arg 0 a) e);
  mkReply "replyWithAnimation" "sendAnimation" 1 []
    (fun ctx a e => replyWithAnimation ctx (arg 0 a) e);
  mkReply "replyWithVideoNote" "sendVideoNote" 1 []
    (fun ctx a e => replyWithVideoNote ctx (arg 0 a) e);
  mkReply "replyWithInvoice" "sendInvoice" 1 []
    (fun ctx a e => replyWithInvoice ctx (arg 0 a) e);
  mkReply "replyWithGame" "sendGame" 1 []
    (fun ctx a e => replyWithGame ctx (arg 0 a) e);
  mkReply "replyWithVoice" "sendVoice" 1 []
    (fun ctx a e => replyWithVoice ctx (arg 0 a) e);
  mkReply "replyWithPoll" "sendPoll" 2 []
    (fun ctx a e => replyWithPoll ctx (arg 0 a) (arg 1 a) e);
  mkReply "replyWithQuiz" "sendQuiz" 2 []
    (fun ctx a e => replyWithQuiz ctx (arg 0 a) (arg 1 a) e);
  mkReply "replyWithLocation" "sendLocation" 2 []
    (fun ctx a e => replyWithLocation ctx (arg 0 a) (arg 1 a) e);
  mkReply "replyWithVenue" "sendVenue" 4 []
    (fun ctx a e => replyWithVenue ctx (arg 0 a) (arg 1 a) (arg 2 a) (arg 3 a) e);
  mkReply "replyWithContact" "sendContact" 2 []
    (fun ctx a e => replyWithContact ctx (arg 0 a) (arg 1 a) e);
  mkReply "replyWithMarkdown" "sendMessage" 1 [("parse_mode", JString "Markdown")]
    (fun ctx a e => replyWithMarkdown ctx (arg 0 a) e);
  mkReply "replyWithMarkdownV2" "sendMessage" 1 [("parse_mode", JString "MarkdownV2")]
    (fun ctx a e => replyWithMarkdownV2 ctx (arg 0 a) e);
  mkReply "replyWithHTML" "sendMessage" 1 [("parse_mode", JString "HTML")]
    (fun ctx a e => replyWithHTML ctx (arg 0 a) e)
].

(** A method of fixed arity that passes its arguments on unchanged. *)
Record Fixed : Type := mkFixed {
  f_method : string;
  f_arity : nat;
  f_run : Context -> list JsValue -> M Call
}.

Definition editOperations : list Fixed := [
  mkFixed "editMessageText" 2
    (fun ctx a => editMessageText ctx (arg 0 a) (arg 1 a));
  mkFixed "editMessageCaption" 2
    (fun ctx a => editMessageCaption ctx (arg 0 a) (arg 1 a));
  mkFixed "editMessageMedia" 2
    (fun ctx a => editMessageMedia ctx (arg 0 a) (arg 1 a));
  mkFixed "editMessageReplyMarkup" 1
    (fun ctx a => editMessageReplyMarkup ctx (arg 0 a));
  mkFixed "editMessageLiveLocation" 3
    (fun ctx a => editMessageLiveLocation ctx (arg 0 a) (arg 1 a) (arg 2 a));
  mkFixed "stopMessageLiveLocation" 1
    (fun ctx a => stopMessageLiveLocation ctx (arg 0 a))
].

Definition forumTopicOperations : list Fixed := [
  mkFixed "editForumTopic" 1
    (fun ctx a => editForumTopic ctx (arg 0 a));
  mkFixed "closeForumTopic" 0
    (fun ctx a => closeForumTopic ctx);
  mkFixed "reopenForumTopic" 0
    (fun ctx a => reopenForumTopic ctx);
  mkFixed "deleteForumTopic" 0
    (fun ctx a => deleteForumTopic ctx);
  mkFixed "unpinAllForumTopicMessages" 0
    (fun ctx a => unpinAllForumTopicMessages ctx)
].

(** ** Vocabulary of the specification *)

(** The closed set of update kinds. *)
Definition updateKinds : list string :=
  ["message"; "edited_message"; "channel_post"; "edited_channel_post";
   "inline_query"; "chosen_inline_result"; "callback_query";
   "shipping_query"; "pre_checkout_query"; "poll"; "poll_answer";
   "my_chat_member"; "chat_member"; "chat_join_request"].

(** A populated top-level field: a key whose value is a non-null object. *)
Definition populated (u : Update) (k : string) : Prop :=
  In k (keys u) /\ is_object (obj_get u k) = true.

(** No top-level key holds [null]. *)
Definition nullFree (u : Update) : Prop :=
  forall k, In k (keys u) -> obj_get u k <> JNull.

(** The update is populated with kind [k] and with no other kind. *)
Definition populatedOnly (ctx : Context) (k : string) : Prop :=
  is_object (obj_get (update ctx) k) = true /\
  forall k', In k' updateKinds -> k' <> k ->
             is_nullish (obj_get (update ctx) k') = true.

(** The first candidate that is neither [null] nor [undefined]. *)
Definition firstDefined (candidates : list JsValue) : option JsValue :=
  find (fun c => negb (is_nullish c)) candidates.

(** The optional parameter [extra], read as an object. *)
Definition extraHas (extra : option JsObj) (k : string) : bool :=
  match extra with Some e => has_key e k | None => false end.

Definition extraGet (extra : option JsObj) (k : string) : JsValue :=
  match extra with Some e => obj_get e k | None => JUndefined end.

(** What a failed guard throws: the usage error naming the operation and
    the update kind, unless reading the update kind throws first. *)
Definition guardError (ctx : Context) (method : string) : JsError :=
  match updateType ctx with
  | inr kind => UsageError method kind
  | inl e => e
  end.

(** The call passes [id] as its first argument, bare or as the
    [chatId] of a parameter object. *)
Definition carriesId (c : Call) (id : JsValue) : Prop :=
  exists first rest,
    arguments c = first :: rest /\
    (first = id \/ exists others, first = JObject (("chatId", id) :: others)).

(** A callback query or an inline-message-id is present. *)
Definition editable (ctx : Context) : bool :=
  negb (is_nullish (callbackQuery ctx)) || negb (is_undefined (inlineMessageId ctx)).

(** Number of [end()] calls among a handler's actions. *)
Definition endCount (acts : list ResponseAction) : nat :=
  length (filter (fun a => match a with End => true | _ => false end) acts).

(** ** Sample updates *)

(** [{ update_id: 1 }]: no kind at all. *)
Definition emptyUpdate : Context :=
  mkContext [("update_id", JNumber 1)] JUndefined.

(** [{ update_id: 1, message: null }] *)
Definition nullMessageUpdate : Context :=
  mkContext [("update_id", JNumber 1); ("message", JNull)] JUndefined.

(** [{ update_id: 1, message: null, poll: { id: "7" } }] *)
Definition nullThenPollUpdate : Context :=
  mkContext [("update_id", JNumber 1); ("message", JNull);
             ("poll", JObject [("id", JString "7")])] JUndefined.

(** [{ update_id: 1, poll: { id: "7" } }] *)
Definition pollUpdate : Context :=
  mkContext [("update_id", JNumber 1);
             ("poll", JObject [("id", JString "7")])] JUndefined.

Definition sampleChat : JsValue :=
  JObject [("id", JNumber 42); ("type", JString "supergroup")].
Definition sampleUser : JsValue := JObject [("id", JNumber 5); ("is_bot", JBool false)].
Definition otherUser : JsValue := JObject [("id", JNumber 6); ("is_bot", JBool false)].

(** A message in forum topic 9 of chat 42. *)
Definition sampleMessage : JsValue :=
  JObject [("message_id", JNumber 100); ("from", sampleUser); ("chat", sampleChat);
           ("is_topic_message", JBool true); ("message_thread_id", JNumber 9)].

Definition messageUpdate : Context :=
  mkContext [("update_id", JNumber 1); ("message", sampleMessage)] JUndefined.

Definition joinRequestUpdate : Context :=
  mkContext [("update_id", JNumber 1);
             ("chat_join_request", JObject [("chat", sampleChat); ("from", sampleUser)])]
            JUndefined.

Definition callbackUpdate : Context :=
  mkContext [("update_id", JNumber 1);
             ("callback_query",
              JObject [("id", JString "cb"); ("from", otherUser);
                       ("message", sampleMessage)])]
            JUndefined.

(** A simulated update carrying a callback query and a message at once. *)
Definition callbackAndMessageUpdate : Context :=
  mkContext [("update_id", JNumber 1); ("message", sampleMessage);
             ("callback_query", JObject [("id", JString "cb"); ("from", otherUser)])]
            JUndefined.

(** A message whose chat is [null]. *)
Definition nullChatUpdate : Context :=
  mkContext [("update_id", JNumber 1);
             ("message", JObject [("message_id", JNumber 100); ("chat", JNull)])]
            JUndefined.

(** A message that names a thread but no chat. *)
Definition threadWithoutChatUpdate : Context :=
  mkContext [("update_id", JNumber 1);
             ("message", JObject [("message_id", JNumber 100);
                                  ("message_thread_id", JNumber 9)])]
            JUndefined.

(** A handler that ends the response itself and then throws. *)
Definition endingHandler (u : JsValue) : HandlerRun :=
  mkRun [SetStatus 200; End] (Some (JString "boom")).

(** A handler that throws without touching the response. *)
Definition throwingHandler (u : JsValue) : HandlerRun :=
  mkRun [] (Some (JString "boom")).

(** A parser that accepts nothing. *)
Definition rejectAll (s : string) : option JsValue := None.

Definition freshResponse : ServerResponse := mkResponse 200 0.

(** ** The remaining members of the context *)

(** What the accessors below can throw. *)
Inductive AccessError : Type :=
| NotAnObject (property : string)
    (* TypeError: Cannot use 'in' operator to search for '<property>' in <primitive> *)
| NotDestructurable.
    (* TypeError: Cannot destructure property 'data' of <null or undefined> *)

(** [k in v] for the property names the source tests: [None] stands for
    the TypeError the operator throws on a value that is not an
    object. *)
Definition js_in (k : string) (v : JsValue) : option bool :=
  match v with
  | JObject o => Some (has_key o k)
  | JArray _ => Some false
  | _ => None
  end.

Definition passportData (ctx : Context) : AccessError + JsValue :=
  if is_nullish (message ctx) then inr JUndefined
  else
    match js_in "passport_data" (message ctx) with
    | None => inl (NotAnObject "passport_data")
    | Some false => inr JUndefined
    | Some true => inr (message ctx ?. "passport_data")
    end.

(** What [webAppData] returns: the two values its closures capture.
    [text()] hands back [data]; [json()] is [JSON.parse(data)]. *)
Record WebAppData : Type := mkWebAppData {
  wad_data : JsValue;
  wad_button_text : JsValue
}.

Definition wad_text (w : WebAppData) : JsValue := wad_data w.

Definition wad_json (JSON_parse : string -> option JsValue)
    (toString : JsValue -> string) (w : WebAppData) : option JsValue :=
  match wad_data w with
  | JString s => JSON_parse s
  | other => JSON_parse (toString other)
  end.

Definition webAppData (ctx : Context) : AccessError + option WebAppData :=
  if has_key (update ctx) "message" && truthy (obj_get (update ctx) "message") then
    match js_in "web_app_data" (obj_get (update ctx) "message") with
    | None => inl (NotAnObject "web_app_data")
    | Some false => inr None
    | Some true =>
        let web_app_data := prop (obj_get (update ctx) "message") "web_app_data" in
        if is_nullish web_app_data then inl NotDestructurable
        else inr (Some (mkWebAppData (prop web_app_data "data")
                                     (prop web_app_data "button_text")))
    end
  else inr None.

(** A filter handed to [has]: a type guard or the name of an update
    kind. *)
Inductive Filter : Type :=
| Guard (guard : Update -> bool)
| Kind (kind : string).

(** [MaybeArray<Filter>] *)
Inductive MaybeArray (A : Type) : Type :=
| One (a : A)
| Many (items : list A).

Arguments One {A} a.
Arguments Many {A} items.

(** The string-named properties every plain object inherits from
    [Object.prototype]. *)
Definition objectPrototypeNames : list string :=
  ["constructor"; "__defineGetter__"; "__defineSetter__"; "hasOwnProperty";
   "__lookupGetter__"; "__lookupSetter__"; "isPrototypeOf";
   "propertyIsEnumerable"; "toString"; "valueOf"; "__proto__";
   "toLocaleString"].

(** [k in o] on a plain object, for any name: an own key or an inherited
    one. *)
Definition in_object (k : string) (o : JsObj) : bool :=
  has_key o k || existsb (fun name => name =? k) objectPrototypeNames.

(** One filter against the update: a guard is called, a kind is looked
    up with [in]. *)
Definition passes (u : Update) (f : Filter) : bool :=
  match f with
  | Guard guard => guard u
  | Kind kind => in_object kind u
  end.

(** The [for (const filter of filters)] loop of [has]. *)
Fixpoint has_loop (u : Update) (filters : list Filter) : bool :=
  match filters with
  | [] => false
  | f :: rest => if passes u f then true else has_loop u rest
  end.

Definition has (ctx : Context) (filters : MaybeArray Filter) : bool :=
  has_loop (update ctx)
    (match filters with One f => [f] | Many items => items end).

(** *** Operations that pass straight through to the transport *)

Definition setStickerPositionInSet (ctx : Context) (sticker position : JsValue) : M Call :=
  telegram "setStickerPositionInSet" [sticker; position].
Definition setStickerSetThumb (ctx : Context) (args : list JsValue) : M Call :=
  telegram "setStickerSetThumb" args.
Definition deleteStickerFromSet (ctx : Context) (sticker : JsValue) : M Call :=
  telegram "deleteStickerFromSet" [sticker].
Definition setMyDefaultAdministratorRights (ctx : Context) (extra : JsValue) : M Call :=
  telegram "setMyDefaultAdministratorRights" [extra].
Definition getMyDefaultAdministratorRights (ctx : Context) (extra : JsValue) : M Call :=
  telegram "getMyDefaultAdministratorRights" [extra].

(** A send operation: the method (also its transport operation), the
    number of arguments before [extra], and the method itself. *)
Record Send : Type := mkSend {
  s_method : string;
  s_arity : nat;
  s_run : Context -> list JsValue -> option JsObj -> M Call
}.

Definition sendOperations : list Send := [
  mkSend "sendMessage" 1
    (fun ctx a e => sendMessage ctx (arg 0 a) e);
  mkSend "sendPhoto" 1
    (fun ctx a e => sendPhoto ctx (arg 0 a) e);
  mkSend "sendMediaGroup" 1
    (fun ctx a e => sendMediaGroup ctx (arg 0 a) e);
  mkSend "sendAudio" 1
    (fun ctx a e => sendAudio ctx (arg 0 a) e);
  mkSend "sendDice" 0
    (fun ctx a e => sendDice ctx e);
  mkSend "sendDocument" 1
    (fun ctx a e => sendDocument ctx (arg 0 a) e);
  mkSend "sendSticker" 1
    (fun ctx a e => sendSticker ctx (arg 0 a) e);
  mkSend "sendVideo" 1
    (fun ctx a e => sendVideo ctx (arg 0 a) e);
  mkSend "sendAnimation" 1
    (fun ctx a e => sendAnimation ctx (arg 0 a) e);
  mkSend "sendVideoNote" 1
    (fun ctx a e => sendVideoNote ctx (arg 0 a) e);
  mkSend "sendInvoice" 1
    (fun ctx a e => sendInvoice ctx (arg 0 a) e);
  mkSend "sendGame" 1
    (fun ctx a e => sendGame ctx (arg 0 a) e);
  mkSend "sendVoice" 1
    (fun ctx a e => sendVoice ctx (arg 0 a) e);
  mkSend "sendPoll" 2
    (fun ctx a e => sendPoll ctx (arg 0 a) (arg 1 a) e);
  mkSend "sendQuiz" 2
    (fun ctx a e => sendQuiz ctx (arg 0 a) (arg 1 a) e);
  mkSend "sendLocation" 2
    (fun ctx a e => sendLocation ctx (arg 0 a) (arg 1 a) e);
  mkSend "sendVenue" 4
    (fun ctx a e => sendVenue ctx (arg 0 a) (arg 1 a) (arg 2 a) (arg 3 a) e);
  mkSend "sendContact" 2
    (fun ctx a e => sendContact ctx (arg 0 a) (arg 1 a) e)
].

Definition passthroughOperations : list Fixed := [
  mkFixed "setStickerPositionInSet" 2
    (fun ctx a => setStickerPositionInSet ctx (arg 0 a) (arg 1 a));
  mkFixed "deleteStickerFromSet" 1
    (fun ctx a => deleteStickerFromSet ctx (arg 0 a));
  mkFixed "setMyDefaultAdministratorRights" 1
    (fun ctx a => setMyDefaultAdministratorRights ctx (arg 0 a));
  mkFixed "getMyDefaultAdministratorRights" 1
    (fun ctx a => getMyDefaultAdministratorRights ctx (arg 0 a))
].

(** An operation run is all or nothing: it throws and leaves the
    transport untouched, or it returns the one call it made, a call to
    [name]. *)
Definition allOrNothing (r : (JsError + Call) * list Call)
    (calls : list Call) (name : string) : Prop :=
  (exists e, r = (inl e, calls)) \/
  (exists c, r = (inr c, calls ++ [c]) /\ operation c = name).

(** A step that does not touch the transport. *)
Definition silent {A : Type} (m : M A) : Prop :=
  forall calls, exists r, m calls = (r, calls).

(** ** Remote-API failures *)

Module TelegramError.

Record ErrorPayload : Type := mkPayload {
  error_code : Z;
  description : string;
  parameters : JsValue
}.

(** [Number.MAX_SAFE_INTEGER] *)
Definition maxSafeInteger : Z := 9007199254740991.

(** The integers JavaScript holds exactly. *)
Definition safeInteger (n : Z) : bool := (Z.abs n <=? maxSafeInteger)%Z.

Record t : Type := mkError {
  response : ErrorPayload;
  on : JsValue;
  message : string
}.

Section Printing.

(** How JavaScript prints a number beyond the safe integers (rounded
    digits, exponent form from 10^21 on): left open. *)
Variable printLarge : Z -> string.

(** How a template literal prints a number that is an integer: a safe
    integer in decimal, in full, with a minus sign when negative. *)
Definition numberToString (n : Z) : string :=
  if safeInteger n then NilZero.string_of_int (Z.to_int n) else printLarge n.

(** [new TelegramError(response, on)] *)
Definition make (response : ErrorPayload) (on : JsValue) : t :=
  mkError response on
    (numberToString (error_code response) ++ ": " ++ description response)%string.

End Printing.

Definition code (e : t) : Z := error_code (response e).
Definition description_of (e : t) : string := description (response e).
Definition parameters_of (e : t) : JsValue := parameters (response e).

End TelegramError.

(** No character of [s] is a colon. *)
Fixpoint colonFree (s : string) : bool :=
  match s with
  | EmptyString => true
  | String c rest => negb (Ascii.eqb c ":") && colonFree rest
  end.

(** ** More sample updates *)

(** A chat-member update: a chat, but no message. *)
Definition chatMemberUpdate : Context :=
  mkContext [("update_id", JNumber 1);
             ("chat_member", JObject [("chat", sampleChat); ("from", sampleUser)])]
            JUndefined.

(** An edited message in forum topic 9. *)
Definition editedMessageUpdate : Context :=
  mkContext [("update_id", JNumber 1); ("edited_message", sampleMessage)] JUndefined.

(** A chosen inline result that can be edited. *)
Definition chosenResultUpdate : Context :=
  mkContext [("update_id", JNumber 1);
             ("chosen_inline_result",
              JObject [("result_id", JString "r"); ("from", sampleUser);
                       ("inline_message_id", JString "im")])]
            JUndefined.

(** A message carrying web-app data. *)
Definition webAppUpdate : Context :=
  mkContext [("update_id", JNumber 1);
             ("message",
              JObject [("message_id", JNumber 100); ("chat", sampleChat);
                       ("web_app_data",
                        JObject [("data", JString "[1]");
                                 ("button_text", JString "Open")])])]
            JUndefined.

(** A simulated update with two populated kinds. *)
Definition pollThenMessageUpdate : Context :=
  mkContext [("update_id", JNumber 1);
             ("poll", JObject [("id", JString "7")]);
             ("message", sampleMessage)] JUndefined.

(** * Properties *)

(** ** JavaScript values *)

Lemma coalesce_absent a b : is_nullish a = true -> a ?? b = b.
Proof. unfold coalesce. now intros ->. Qed.

Lemma coalesce_present a b : is_nullish a = false -> a ?? b = a.
Proof. unfold coalesce. now intros ->. Qed.

Lemma opt_prop_absent v k : is_nullish v = true -> v ?. k = JUndefined.
Proof. unfold opt_prop. now intros ->. Qed.

Lemma opt_prop_present v k : is_nullish v = false -> v ?. k = prop v k.
Proof. unfold opt_prop. now intros ->. Qed.

Lemma opt_prop_prop v k : v ?. k = prop v k.
Proof. now destruct v. Qed.

Lemma undefined_nullish v : is_undefined v = true -> is_nullish v = true.
Proof. now destruct v. Qed.

Lemma is_undefined_spec v : is_undefined v = true <-> v = JUndefined.
Proof. destruct v; simpl; split; congruence. Qed.

Lemma typeof_object v :
  (typeof v =? "object") = true <-> is_object v = true \/ v = JNull.
Proof.
  destruct v; simpl; split; intros H; auto; try discriminate;
    destruct H as [H | H]; discriminate.
Qed.

Lemma obj_get_in (o : JsObj) k : obj_get o k <> JUndefined -> In k (keys o).
Proof.
  induction o as [| [k' v] o IH]; simpl; [congruence |].
  destruct (String.eqb_spec k' k); auto.
Qed.

Lemma obj_get_set (o : JsObj) k v k' :
  obj_get (obj_set o k v) k' = if k =? k' then v else obj_get o k'.
Proof.
  induction o as [| [k0 v0] o IH]; simpl.
  - reflexivity.
  - destruct (String.eqb_spec k0 k) as [-> | Hne]; simpl.
    + destruct (String.eqb_spec k k'); reflexivity.
    + rewrite IH. destruct (String.eqb_spec k0 k') as [-> | Hne'].
      * destruct (String.eqb_spec k k'); [congruence | reflexivity].
      * reflexivity.
Qed.

(** Copying the keys [ks] of [src] over [base]. *)
Lemma obj_get_copy (src : JsObj) ks : forall base k,
  obj_get (fold_left (fun acc k0 => obj_set acc k0 (obj_get src k0)) ks base) k =
  if existsb (fun k0 => k0 =? k) ks then obj_get src k else obj_get base k.
Proof.
  induction ks as [| k0 ks IH]; intros base k; simpl.
  - reflexivity.
  - rewrite IH, obj_get_set.
    destruct (String.eqb_spec k0 k) as [-> | Hne]; simpl.
    + now destruct (existsb _ ks).
    + reflexivity.
Qed.

Lemma obj_get_assign base src k :
  obj_get (assign base src) k =
  if has_key src k then obj_get src k else obj_get base k.
Proof. apply obj_get_copy. Qed.

Lemma obj_get_spread base extra k :
  obj_get (spread base extra) k =
  if extraHas extra k then extraGet extra k else obj_get base k.
Proof. destruct extra; simpl; [apply obj_get_assign | reflexivity]. Qed.

(** A chain [c0 ?? c1 ?? ... ?? cn] is the first defined candidate. *)
Lemma coalesce_chain_first cs : forall c0 m,
  firstDefined (c0 :: cs) = Some m -> fold_left coalesce cs c0 = m.
Proof.
  unfold firstDefined.
  induction cs as [| c cs IH]; intros c0 m; simpl.
  - destruct (is_nullish c0); simpl; congruence.
  - destruct (is_nullish c0) eqn:E0; simpl; intros H.
    + rewrite (coalesce_absent _ _ E0). apply IH. exact H.
    + rewrite (coalesce_present _ _ E0). apply IH. simpl. now rewrite E0.
Qed.

Lemma coalesce_chain_none cs : forall c0,
  firstDefined (c0 :: cs) = None ->
  fold_left coalesce cs c0 = last (c0 :: cs) JUndefined /\
  is_nullish (fold_left coalesce cs c0) = true.
Proof.
  unfold firstDefined.
  induction cs as [| c cs IH]; intros c0.
  - simpl. destruct (is_nullish c0) eqn:E0; simpl; [auto | congruence].
  - cbn [find fold_left]. destruct (is_nullish c0) eqn:E0; simpl negb; cbv iota;
      [| congruence].
    intros H. rewrite (coalesce_absent _ _ E0).
    destruct (IH c H) as [H1 H2]. split; [| exact H2].
    rewrite H1. reflexivity.
Qed.

Lemma coalesce_chain_prop cs c0 k :
  fold_left coalesce cs c0 ?. k =
  match firstDefined (c0 :: cs) with
  | Some c => prop c k
  | None => JUndefined
  end.
Proof.
  destruct (firstDefined (c0 :: cs)) as [m |] eqn:E.
  - rewrite (coalesce_chain_first _ _ _ E). apply opt_prop_prop.
  - apply opt_prop_absent. now apply coalesce_chain_none.
Qed.

(** ** The classifier *)

Lemma updateType_loop_some u todo k :
  updateType_loop u todo = Some k ->
  In k todo /\ (typeof (obj_get u k) =? "object") = true /\
  exists before after, todo = before ++ k :: after /\
    forall k', In k' before -> (typeof (obj_get u k') =? "object") = false.
Proof.
  induction todo as [| key rest IH]; simpl; [discriminate |].
  destruct (typeof (obj_get u key) =? "object") eqn:E.
  - intros [= <-]. repeat split; auto.
    exists [], rest. split; [reflexivity | intros k' []].
  - intros H. destruct (IH H) as (Hin & Hobj & before & after & -> & Hbefore).
    repeat split; auto.
    exists (key :: before), after. split; [reflexivity |].
    intros k' [<- | Hk']; auto.
Qed.

Lemma updateType_loop_none u todo :
  updateType_loop u todo = None <->
  forall k, In k todo -> (typeof (obj_get u k) =? "object") = false.
Proof.
  induction todo as [| key rest IH]; simpl.
  - split; [intros _ k [] | reflexivity].
  - destruct (typeof (obj_get u key) =? "object") eqn:E.
    + split; [discriminate |]. intros H. specialize (H key (or_introl eq_refl)).
      congruence.
    + rewrite IH. split.
      * intros H k [<- | Hk]; auto.
      * intros H k Hk. apply H. now right.
Qed.

(** What the getter does on any update: the first enumerated key whose
    value has type ["object"] wins, [null] included. *)
Lemma updateType_first_object_key ctx k :
  updateType ctx = inr k <->
  exists before after, keys (update ctx) = before ++ k :: after /\
    (typeof (obj_get (update ctx) k) =? "object") = true /\
    forall k', In k' before -> (typeof (obj_get (update ctx) k') =? "object") = false.
Proof.
  unfold updateType. split.
  - destruct (updateType_loop _ _) as [k0 |] eqn:E; [| discriminate].
    intros [= <-]. apply updateType_loop_some in E.
    destruct E as (_ & Hobj & before & after & Hsplit & Hbefore).
    exists before, after. auto.
  - intros (before & after & Hsplit & Hobj & Hbefore).
    destruct (updateType_loop _ _) as [k0 |] eqn:E.
    + apply updateType_loop_some in E.
      destruct E as (_ & Hobj0 & before0 & after0 & Hsplit0 & Hbefore0).
      rewrite Hsplit in Hsplit0. clear Hsplit.
      revert before0 Hsplit0 Hbefore0.
      induction before as [| b before IH]; intros [| b0 before0]; simpl;
        intros Hsplit0 Hbefore0.
      * now injection Hsplit0 as ->.
      * injection Hsplit0 as -> _.
        specialize (Hbefore0 b0 (or_introl eq_refl)). congruence.
      * injection Hsplit0 as -> _.
        specialize (Hbefore k0 (or_introl eq_refl)). congruence.
      * injection Hsplit0 as -> Hrest.
        apply (IH (fun k' Hk' => Hbefore k' (or_intror Hk')) before0 Hrest).
        intros k' Hk'. apply Hbefore0. now right.
    + rewrite updateType_loop_none in E.
      rewrite (E k) in Hobj; [discriminate |].
      rewrite Hsplit. apply in_or_app. right. now left.
Qed.

Lemma updateType_fails ctx e :
  updateType ctx = inl e <->
  e = ClassificationError (update ctx) /\
  forall k, In k (keys (update ctx)) ->
            (typeof (obj_get (update ctx) k) =? "object") = false.
Proof.
  unfold updateType.
  destruct (updateType_loop _ _) as [k0 |] eqn:E.
  - split; [discriminate |]. intros [_ H].
    apply updateType_loop_some in E. destruct E as (Hin & Hobj & _).
    rewrite (H _ Hin) in Hobj. discriminate.
  - rewrite updateType_loop_none in E. split.
    + intros [= <-]. auto.
    + now intros [-> _].
Qed.

(** An update one of whose top-level values is an object has a kind. *)
Lemma updateType_defined ctx k :
  is_object (obj_get (update ctx) k) = true ->
  exists kind, updateType ctx = inr kind.
Proof.
  intros Hobj. destruct (updateType ctx) as [e | kind] eqn:E; [| now exists kind].
  apply updateType_fails in E. destruct E as [_ H].
  assert (Hin : In k (keys (update ctx))).
  { apply obj_get_in. intros Heq. rewrite Heq in Hobj. discriminate. }
  specialize (H k Hin).
  assert ((typeof (obj_get (update ctx) k) =? "object") = true)
    by (apply typeof_object; now left).
  congruence.
Qed.

(** C1, as the code has it.  On an update none of whose top-level keys
    holds [null]: with exactly one populated field the classifier
    returns that field's name; with no populated field classification
    raises the classification error; and that is the only way it
    fails. *)
Theorem updateType_classifies ctx :
  nullFree (update ctx) ->
  (forall k, populated (update ctx) k ->
             (forall k', populated (update ctx) k' -> k' = k) ->
             updateType ctx = inr k) /\
  ((forall k, ~ populated (update ctx) k) ->
   updateType ctx = inl (ClassificationError (update ctx))) /\
  (forall e, updateType ctx = inl e ->
             e = ClassificationError (update ctx) /\
             forall k, ~ populated (update ctx) k).
Proof.
  intros Hnull.
  assert (Hobj : forall k, In k (keys (update ctx)) ->
            (typeof (obj_get (update ctx) k) =? "object") = true ->
            populated (update ctx) k).
  { intros k Hin Ht. split; [exact Hin |].
    apply typeof_object in Ht. destruct Ht as [Ht | Ht]; [exact Ht |].
    now apply Hnull in Ht. }
  repeat split.
  - intros k [Hin Hk] Huniq.
    destruct (updateType ctx) as [e | k0] eqn:E.
    + apply updateType_fails in E. destruct E as [_ H].
      assert ((typeof (obj_get (update ctx) k) =? "object") = true)
        by (apply typeof_object; now left).
      rewrite (H k Hin) in *. discriminate.
    + f_equal. apply Huniq.
      apply updateType_first_object_key in E.
      destruct E as (before & after & Hsplit & Ht & _).
      apply Hobj; [| exact Ht].
      rewrite Hsplit. apply in_or_app. right. now left.
  - intros Hnone.
    destruct (updateType ctx) as [e | k0] eqn:E.
    + apply updateType_fails in E. now destruct E as [-> _].
    + exfalso. apply updateType_first_object_key in E.
      destruct E as (before & after & Hsplit & Ht & _).
      apply (Hnone k0). apply Hobj; [| exact Ht].
      rewrite Hsplit. apply in_or_app. right. now left.
  - now apply updateType_fails in H.
  - intros k [Hin Hk]. apply updateType_fails in H. destruct H as [_ H].
    assert ((typeof (obj_get (update ctx) k) =? "object") = true)
      by (apply typeof_object; now left).
    rewrite (H k Hin) in *. discriminate.
Qed.

Lemma updateType_classifies_witness :
  updateType messageUpdate = inr "message" /\
  updateType emptyUpdate = inl (ClassificationError (update emptyUpdate)).
Proof.
  split.
  - apply (proj1 (updateType_classifies messageUpdate
                    ltac:(intros k [<- | [<- | []]]; discriminate))).
    + split; [simpl; tauto | reflexivity].
    + intros k' [[<- | [<- | []]] H]; [discriminate | reflexivity].
  - apply (proj1 (proj2 (updateType_classifies emptyUpdate
                    ltac:(intros k [<- | []]; discriminate)))).
    intros k [[<- | []] H]. discriminate.
Defined.

(** C1 as stated fails on a [null] field: [typeof null] is ["object"].
    In the first update [poll] is the one populated field, yet the
    classifier answers ["message"]; in the second no field is populated,
    yet classification succeeds. *)
Lemma updateType_null_field_counterexample :
  (populated (update nullThenPollUpdate) "poll" /\
   (forall k, populated (update nullThenPollUpdate) k -> k = "poll") /\
   updateType nullThenPollUpdate = inr "message" /\
   updateType nullThenPollUpdate <> inr "poll") /\
  ((forall k, ~ populated (update nullMessageUpdate) k) /\
   updateType nullMessageUpdate = inr "message").
Proof.
  split; [split; [| split; [| split]] | split].
  - split; [simpl; tauto | reflexivity].
  - intros k [[<- | [<- | [<- | []]]] H]; try discriminate; reflexivity.
  - reflexivity.
  - discriminate.
  - intros k [[<- | [<- | []]] H]; discriminate.
  - reflexivity.
Qed.

(** ** Resolved accessors *)

(** The candidates of the "any message-bearing update" resolution, in
    the order the specification gives them. *)
Lemma getMessageFromAnySource_chain ctx :
  getMessageFromAnySource ctx =
  fold_left coalesce
    [editedMessage ctx; callbackQuery ctx ?. "message"; channelPost ctx;
     editedChannelPost ctx]
    (message ctx).
Proof. reflexivity. Qed.

Lemma chat_chain ctx :
  chat ctx =
  fold_left coalesce
    [myChatMember ctx; chatJoinRequest ctx; getMessageFromAnySource ctx]
    (chatMember ctx) ?. "chat".
Proof. reflexivity. Qed.

Lemma from_chain ctx :
  from ctx =
  fold_left coalesce
    [inlineQuery ctx; shippingQuery ctx; preCheckoutQuery ctx;
     chosenInlineResult ctx; chatMember ctx; myChatMember ctx;
     chatJoinRequest ctx; getMessageFromAnySource ctx]
    (callbackQuery ctx) ?. "from".
Proof. reflexivity. Qed.

(** Every other kind of a [populatedOnly] update is absent. *)
Ltac absent ctx H k :=
  let Hk := fresh "Habsent" in
  assert (Hk : is_nullish (obj_get (update ctx) k) = true)
    by (apply (proj2 H); [simpl; tauto | discriminate]).

Ltac unfold_projections :=
  unfold message, editedMessage, inlineQuery, shippingQuery, preCheckoutQuery,
    chosenInlineResult, channelPost, editedChannelPost, callbackQuery, poll,
    pollAnswer, myChatMember, chatMember, chatJoinRequest in *.

(** Decide each [??] and [?.] whose operand is known. *)
Ltac resolve :=
  unfold coalesce, opt_prop;
  repeat match goal with
         | H : is_nullish ?v = _ |- context [is_nullish ?v] => rewrite H; cbv iota
         end.

(** [populatedOnly] on a concrete update, kind by kind. *)
Ltac populated_only :=
  split;
  [ reflexivity
  | let k' := fresh "k" in
    let Hk' := fresh "Hk" in
    let Hne := fresh "Hne" in
    intros k' Hk' Hne; simpl in Hk';
    repeat (destruct Hk' as [<- | Hk']; [try reflexivity; now elim Hne |]);
    contradiction ].

Lemma object_defined v : is_object v = true -> is_nullish v = false.
Proof. now destruct v. Qed.

Lemma prop_of_nullish v k : is_nullish v = true -> prop v k = JUndefined.
Proof. now destruct v. Qed.

(** ** Running an operation *)

Lemma assert_passes ctx v method calls :
  is_undefined v = false -> assert ctx v method calls = (inr tt, calls).
Proof. unfold assert. now intros ->. Qed.

Lemma assert_throws ctx v method calls :
  is_undefined v = true ->
  assert ctx v method calls = (inl (guardError ctx method), calls).
Proof.
  unfold assert, guardError, bind, lift, throw. intros ->.
  now destruct (updateType ctx).
Qed.

Lemma member_reads v k calls :
  is_nullish v = false -> member v k calls = (inr (prop v k), calls).
Proof. unfold member. now intros ->. Qed.

Lemma nullish_undefined v : is_nullish v = false -> is_undefined v = false.
Proof. now destruct v. Qed.

(** A guard that fails ends the operation before the transport is
    reached. *)
Lemma guard_fails {A} ctx v method (k : M A) calls :
  is_undefined v = true ->
  (assert ctx v method ;; k) calls = (inl (guardError ctx method), calls).
Proof. intros H. unfold bind. now rewrite (assert_throws _ _ _ _ H). Qed.

Lemma guard_passes {A} ctx v method (k : M A) calls :
  is_undefined v = false ->
  (assert ctx v method ;; k) calls = k calls.
Proof. intros H. unfold bind. now rewrite (assert_passes _ _ _ _ H). Qed.

Lemma member_bind {A} v p (k : JsValue -> M A) calls :
  is_nullish v = false ->
  bind (member v p) k calls = k (prop v p) calls.
Proof. intros H. unfold bind. now rewrite (member_reads _ _ _ H). Qed.

(** C4.  The "any message-bearing update" resolution returns the first
    defined candidate in the order message, edited message, the message
    inside the callback query, channel post, edited channel post (and a
    nullish value when none is defined); [senderChat], the reply
    operations, [deleteMessage], [forwardMessage] and [copyMessage] all
    work on the message so resolved. *)
Theorem getMessageFromAnySource_order ctx :
  let resolved :=
    match firstDefined [message ctx; editedMessage ctx;
                        callbackQuery ctx ?. "message";
                        channelPost ctx; editedChannelPost ctx] with
    | Some m => m
    | None => editedChannelPost ctx
    end in
  getMessageFromAnySource ctx = resolved /\
  (firstDefined [message ctx; editedMessage ctx; callbackQuery ctx ?. "message";
                 channelPost ctx; editedChannelPost ctx] = None ->
   is_nullish resolved = true) /\
  senderChat ctx = resolved ?. "sender_chat" /\
  (forall extra,
     reply_extra ctx extra =
     Some (spread [("reply_to_message_id", resolved ?. "message_id")] extra)) /\
  (forall calls, is_nullish (chat ctx) = false -> is_nullish resolved = false ->
     deleteMessage ctx JUndefined calls =
     let c := mkCall "deleteMessage" [prop (chat ctx) "id"; prop resolved "message_id"] in
     (inr c, calls ++ [c])) /\
  (forall chatId extra calls,
     is_nullish resolved = false -> is_nullish (prop resolved "chat") = false ->
     forwardMessage ctx chatId extra calls =
     (let c := mkCall "forwardMessage"
                [chatId; prop (prop resolved "chat") "id"; prop resolved "message_id"; extra] in
      (inr c, calls ++ [c])) /\
     copyMessage ctx chatId extra calls =
     (let c := mkCall "copyMessage"
                [chatId; prop (prop resolved "chat") "id"; prop resolved "message_id"; extra] in
      (inr c, calls ++ [c]))).
Proof.
  intros resolved.
  assert (Hres : getMessageFromAnySource ctx = resolved).
  { subst resolved. rewrite getMessageFromAnySource_chain.
    destruct (firstDefined _) as [m |] eqn:E.
    - now apply coalesce_chain_first.
    - now apply coalesce_chain_none in E as [-> _]. }
  split; [exact Hres |]. split; [| split; [| split; [| split]]].
  - intros Hnone. rewrite <- Hres, getMessageFromAnySource_chain.
    now apply coalesce_chain_none.
  - unfold senderChat. now rewrite Hres.
  - intros extra. unfold reply_extra. now rewrite Hres.
  - intros calls Hchat Hmsg. unfold deleteMessage.
    rewrite guard_passes by now apply nullish_undefined.
    change (negb (typeof JUndefined =? "undefined")) with false. cbv iota.
    rewrite Hres.
    rewrite guard_passes by now apply nullish_undefined.
    repeat (rewrite !member_bind by assumption; cbv beta).
    reflexivity.
  - intros chatId extra calls Hmsg Hmchat.
    unfold forwardMessage, copyMessage. rewrite Hres.
    rewrite !guard_passes by now apply nullish_undefined.
    repeat (rewrite !member_bind by assumption; cbv beta).
    split; reflexivity.
Qed.

Lemma getMessageFromAnySource_order_witness :
  getMessageFromAnySource callbackUpdate = sampleMessage /\
  forwardMessage callbackUpdate (JNumber 77) JUndefined [] =
  (let c := mkCall "forwardMessage" [JNumber 77; JNumber 42; JNumber 100; JUndefined] in
   (inr c, [c])).
Proof.
  split.
  - exact (proj1 (getMessageFromAnySource_order callbackUpdate)).
  - exact (proj1 (proj2 (proj2 (proj2 (proj2 (proj2
             (getMessageFromAnySource_order callbackUpdate))))) (JNumber 77) JUndefined []
             eq_refl eq_refl)).
Defined.

(** C2.  [chat] probes chat_member, my_chat_member, chat_join_request
    and then the "any message-bearing update" resolution, in that
    order, and returns the [chat] of the first candidate that is
    defined, [undefined] when none is.  An update populated only with
    chat_join_request yields that request's chat, one populated only
    with message the message's chat, and one populated only with
    callback_query yields callback_query.message.chat. *)
Theorem chat_resolution ctx :
  chat ctx =
  match firstDefined [chatMember ctx; myChatMember ctx; chatJoinRequest ctx;
                      getMessageFromAnySource ctx] with
  | Some candidate => prop candidate "chat"
  | None => JUndefined
  end /\
  (populatedOnly ctx "chat_join_request" ->
   chat ctx = prop (chatJoinRequest ctx) "chat") /\
  (populatedOnly ctx "message" ->
   chat ctx = prop (message ctx) "chat") /\
  (populatedOnly ctx "callback_query" ->
   chat ctx = prop (prop (callbackQuery ctx) "message") "chat").
Proof.
  split; [| split; [| split]].
  - rewrite chat_chain. apply coalesce_chain_prop.
  - intros H. pose proof (object_defined _ (proj1 H)) as Hhere.
    absent ctx H "chat_member". absent ctx H "my_chat_member".
    unfold chat. unfold_projections. now resolve.
  - intros H. pose proof (object_defined _ (proj1 H)) as Hhere.
    absent ctx H "chat_member". absent ctx H "my_chat_member".
    absent ctx H "chat_join_request".
    unfold chat, getMessageFromAnySource. unfold_projections. now resolve.
  - intros H. pose proof (object_defined _ (proj1 H)) as Hhere.
    absent ctx H "chat_member". absent ctx H "my_chat_member".
    absent ctx H "chat_join_request". absent ctx H "message".
    absent ctx H "edited_message". absent ctx H "channel_post".
    absent ctx H "edited_channel_post".
    unfold chat, getMessageFromAnySource. unfold_projections. resolve.
    destruct (is_nullish (prop (obj_get (update ctx) "callback_query") "message"))
      eqn:Hmsg; resolve.
    + symmetry. now apply prop_of_nullish.
    + reflexivity.
Qed.

Lemma chat_resolution_witness :
  chat joinRequestUpdate = sampleChat /\
  chat messageUpdate = sampleChat /\
  chat callbackUpdate = sampleChat.
Proof.
  split; [| split].
  - apply (proj1 (proj2 (chat_resolution joinRequestUpdate))). populated_only.
  - apply (proj1 (proj2 (proj2 (chat_resolution messageUpdate)))). populated_only.
  - apply (proj2 (proj2 (proj2 (chat_resolution callbackUpdate)))). populated_only.
Defined.

(** C3.  [from] probes callback_query, inline_query, shipping_query,
    pre_checkout_query, chosen_inline_result, chat_member,
    my_chat_member, chat_join_request and then the "any message-bearing
    update" resolution, in that order, and returns the [from] of the
    first candidate that is defined.  Whenever a callback query is
    present, [from] is the callback query's [from], whatever the
    message carries. *)
Theorem from_resolution ctx :
  from ctx =
  match firstDefined [callbackQuery ctx; inlineQuery ctx; shippingQuery ctx;
                      preCheckoutQuery ctx; chosenInlineResult ctx;
                      chatMember ctx; myChatMember ctx; chatJoinRequest ctx;
                      getMessageFromAnySource ctx] with
  | Some candidate => prop candidate "from"
  | None => JUndefined
  end /\
  (is_nullish (callbackQuery ctx) = false ->
   from ctx = prop (callbackQuery ctx) "from").
Proof.
  split.
  - rewrite from_chain. apply coalesce_chain_prop.
  - intros H. unfold from. now resolve.
Qed.

Lemma from_resolution_witness :
  prop (message callbackAndMessageUpdate) "from" = sampleUser /\
  from callbackAndMessageUpdate = otherUser.
Proof.
  split; [reflexivity |].
  exact (proj2 (from_resolution callbackAndMessageUpdate) eq_refl).
Defined.

(** ** Guarded operations *)

Lemma shorthand_fails field method ctx args calls :
  is_undefined (field ctx) = true ->
  shorthand field method ctx args calls = (inl (guardError ctx method), calls).
Proof. intros H. unfold shorthand. now rewrite guard_fails. Qed.

Lemma shorthand_delegates field method ctx args calls :
  is_nullish (field ctx) = false ->
  shorthand field method ctx args calls =
  (let c := mkCall method (prop (field ctx) "id" :: args) in (inr c, calls ++ [c])).
Proof.
  intros H. unfold shorthand.
  rewrite guard_passes by now apply nullish_undefined.
  now rewrite member_bind.
Qed.

Lemma send_fails method ctx args extra calls :
  is_undefined (chat ctx) = true ->
  send method ctx args extra calls = (inl (guardError ctx method), calls).
Proof. intros H. unfold send. now rewrite guard_fails. Qed.

Lemma send_delegates method ctx args extra calls :
  is_nullish (chat ctx) = false ->
  send method ctx args extra calls =
  (let c := mkCall method
              (prop (chat ctx) "id" :: args ++
               [JObject (spread [("message_thread_id", getThreadId (message ctx))] extra)]) in
   (inr c, calls ++ [c])).
Proof.
  intros H. unfold send.
  rewrite guard_passes by now apply nullish_undefined.
  now rewrite member_bind.
Qed.

Lemma setChatMenuButton_fails ctx menuButton calls :
  is_undefined (chat ctx) = true ->
  setChatMenuButton ctx menuButton calls =
  (inl (guardError ctx "setChatMenuButton"), calls).
Proof. intros H. unfold setChatMenuButton. now rewrite guard_fails. Qed.

Lemma setChatMenuButton_delegates ctx menuButton calls :
  is_nullish (chat ctx) = false ->
  setChatMenuButton ctx menuButton calls =
  (let c := mkCall "setChatMenuButton"
              [JObject [("chatId", prop (chat ctx) "id"); ("menuButton", menuButton)]] in
   (inr c, calls ++ [c])).
Proof.
  intros H. unfold setChatMenuButton.
  rewrite guard_passes by now apply nullish_undefined.
  now rewrite member_bind.
Qed.

Lemma getChatMenuButton_fails ctx calls :
  is_undefined (chat ctx) = true ->
  getChatMenuButton ctx calls = (inl (guardError ctx "getChatMenuButton"), calls).
Proof. intros H. unfold getChatMenuButton. now rewrite guard_fails. Qed.

Lemma getChatMenuButton_delegates ctx calls :
  is_nullish (chat ctx) = false ->
  getChatMenuButton ctx calls =
  (let c := mkCall "getChatMenuButton" [JObject [("chatId", prop (chat ctx) "id")]] in
   (inr c, calls ++ [c])).
Proof.
  intros H. unfold getChatMenuButton.
  rewrite guard_passes by now apply nullish_undefined.
  now rewrite member_bind.
Qed.

Lemma guardError_classified ctx method kind :
  updateType ctx = inr kind -> guardError ctx method = UsageError method kind.
Proof. unfold guardError. now intros ->. Qed.

Lemma carriesId_first method id rest : carriesId (mkCall method (id :: rest)) id.
Proof. exists id, rest. auto. Qed.

Lemma carriesId_wrapped method id others rest :
  carriesId (mkCall method (JObject (("chatId", id) :: others) :: rest)) id.
Proof. eexists _, rest. split; [reflexivity |]. right. now exists others. Qed.

(** C5, as the code has it.  For every operation guarded on one derived
    field: when the field is undefined the operation throws before any
    transport call, and what it throws is the usage error naming the
    guarded operation and the update kind whenever the update has a
    kind (the classification error otherwise); when the field is
    neither undefined nor null the operation makes exactly one
    transport call, to its own transport operation, passing the
    field's id. *)
Theorem guarded_operations_contract (g : Guarded) :
  In g guardedOperations ->
  forall ctx args extra calls,
    (is_undefined (g_field g ctx) = true ->
     g_run g ctx args extra calls = (inl (guardError ctx (g_operation g)), calls) /\
     forall kind, updateType ctx = inr kind ->
       g_run g ctx args extra calls = (inl (UsageError (g_operation g) kind), calls)) /\
    (is_nullish (g_field g ctx) = false ->
     exists c, g_run g ctx args extra calls = (inr c, calls ++ [c]) /\
               operation c = g_operation g /\
               carriesId c (prop (g_field g ctx) "id")).
Proof.
  intros Hin ctx args extra calls.
  assert (Hfail : is_undefined (g_field g ctx) = true ->
            g_run g ctx args extra calls = (inl (guardError ctx (g_operation g)), calls)).
  { unfold guardedOperations in Hin; simpl in Hin.
    repeat (destruct Hin as [<- | Hin];
            [cbn [g_field g_run g_operation]; intros H;
             first [ now apply shorthand_fails | now apply send_fails
                   | now apply setChatMenuButton_fails
                   | now apply getChatMenuButton_fails ] |]).
    contradiction. }
  split.
  - intros H. split; [now apply Hfail |].
    intros kind Hkind. rewrite (Hfail H). now rewrite (guardError_classified _ _ _ Hkind).
  - clear Hfail. unfold guardedOperations in Hin; simpl in Hin.
    repeat (destruct Hin as [<- | Hin];
            [cbn [g_field g_run g_operation]; intros H; eexists;
             (split;
              [ first [ now apply shorthand_delegates | now apply send_delegates
                      | now apply setChatMenuButton_delegates
                      | now apply getChatMenuButton_delegates ]
              | split; [reflexivity |
                        first [apply carriesId_first | apply carriesId_wrapped]]]) |]).
    contradiction.
Qed.

(** Membership in one of the operation tables. *)
Ltac listed := simpl; repeat (first [left; reflexivity | right]).

Lemma guarded_operations_contract_witness :
  sendMessage pollUpdate (JString "hi") None [] =
    (inl (UsageError "sendMessage" "poll"), []) /\
  getChat pollUpdate [] [] = (inl (UsageError "getChat" "poll"), []) /\
  exists c, banChatMember messageUpdate [JNumber 5] [] = (inr c, [c]) /\
            operation c = "banChatMember" /\ carriesId c (JNumber 42).
Proof.
  split; [| split].
  - exact (proj2 (proj1 (guarded_operations_contract
             (mkGuarded "sendMessage" "sendMessage" chat
                (fun ctx a e => sendMessage ctx (arg 0 a) e))
             ltac:(listed) pollUpdate [JString "hi"] None []) eq_refl) "poll" eq_refl).
  - exact (proj2 (proj1 (guarded_operations_contract
             (mkGuarded "getChat" "getChat" chat (fun ctx a _ => getChat ctx a))
             ltac:(listed) pollUpdate [] None []) eq_refl) "poll" eq_refl).
  - exact (proj2 (guarded_operations_contract
             (mkGuarded "banChatMember" "banChatMember" chat
                (fun ctx a _ => banChatMember ctx a))
             ltac:(listed) messageUpdate [JNumber 5] None []) eq_refl).
Defined.

(** C5 as stated fails in three places.  On an update without a kind the
    guard of [sendMessage] throws the classification error, which names
    neither the operation nor a kind.  On a message whose chat is [null]
    the field is not undefined, yet nothing is delegated: reading the
    chat's id throws.  And the usage error of [reply] names
    [sendMessage], the operation that holds the guard. *)
Lemma guarded_operations_counterexample :
  (chat emptyUpdate = JUndefined /\
   sendMessage emptyUpdate (JString "hi") None [] =
     (inl (ClassificationError (update emptyUpdate)), []) /\
   forall method kind,
     fst (sendMessage emptyUpdate (JString "hi") None []) <> inl (UsageError method kind)) /\
  (chat nullChatUpdate = JNull /\
   sendMessage nullChatUpdate (JString "hi") None [] = (inl (NullReference "id"), [])) /\
  (chat pollUpdate = JUndefined /\
   reply pollUpdate (JString "hi") None [] = (inl (UsageError "sendMessage" "poll"), [])).
Proof.
  repeat split; try reflexivity.
  intros method kind. discriminate.
Qed.

(** ** Edit operations *)

Lemma edit_guard ctx :
  is_undefined (callbackQuery ctx ?? inlineMessageId ctx) = negb (editable ctx).
Proof.
  unfold editable, coalesce.
  destruct (is_nullish (callbackQuery ctx)) eqn:E; simpl.
  - now rewrite negb_involutive.
  - now apply nullish_undefined.
Qed.

Lemma edit_fails method ctx rest calls :
  editable ctx = false ->
  edit method ctx rest calls = (inl (guardError ctx method), calls).
Proof.
  intros H. unfold edit. rewrite guard_fails; [reflexivity |].
  now rewrite edit_guard, H.
Qed.

Lemma edit_proceeds method ctx rest calls :
  editable ctx = true ->
  edit method ctx rest calls =
  (let c := mkCall method
              ([chat ctx ?. "id"; callbackQuery ctx ?. "message" ?. "message_id";
                inlineMessageId ctx] ++ rest) in
   (inr c, calls ++ [c])).
Proof.
  intros H. unfold edit. rewrite guard_passes; [reflexivity |].
  now rewrite edit_guard, H.
Qed.

(** C6, as the code has it.  Every edit operation reaches the transport
    if and only if a callback query or an inline-message-id is present;
    when it does, it passes the chat id, the callback query's message
    id and the inline-message-id, each as far as available, before its
    own arguments; when neither is present it throws before any
    transport call, the usage error whenever the update has a kind and
    the classification error otherwise. *)
Theorem edit_operations_guard (f : Fixed) :
  In f editOperations ->
  forall ctx args calls,
    ((exists c, f_run f ctx args calls = (inr c, calls ++ [c])) <-> editable ctx = true) /\
    (editable ctx = true ->
     f_run f ctx args calls =
     (let c := mkCall (f_method f)
                 ([chat ctx ?. "id"; callbackQuery ctx ?. "message" ?. "message_id";
                   inlineMessageId ctx] ++ positional (f_arity f) args) in
      (inr c, calls ++ [c]))) /\
    (editable ctx = false ->
     f_run f ctx args calls = (inl (guardError ctx (f_method f)), calls) /\
     forall kind, updateType ctx = inr kind ->
       f_run f ctx args calls = (inl (UsageError (f_method f) kind), calls)).
Proof.
  intros Hin ctx args calls.
  assert (Hok : editable ctx = true ->
            f_run f ctx args calls =
            (let c := mkCall (f_method f)
                        ([chat ctx ?. "id"; callbackQuery ctx ?. "message" ?. "message_id";
                          inlineMessageId ctx] ++ positional (f_arity f) args) in
             (inr c, calls ++ [c]))).
  { unfold editOperations in Hin; simpl in Hin.
    repeat (destruct Hin as [<- | Hin];
            [cbn [f_method f_arity f_run]; intros H; now apply edit_proceeds |]).
    contradiction. }
  assert (Hko : editable ctx = false ->
            f_run f ctx args calls = (inl (guardError ctx (f_method f)), calls)).
  { unfold editOperations in Hin; simpl in Hin.
    repeat (destruct Hin as [<- | Hin];
            [cbn [f_method f_arity f_run]; intros H; now apply edit_fails |]).
    contradiction. }
  split; [| split].
  - split.
    + intros [c Hc]. destruct (editable ctx); [reflexivity |].
      rewrite Hko in Hc by reflexivity. discriminate.
    + intros H. rewrite (Hok H). eexists. reflexivity.
  - exact Hok.
  - intros H. split; [now apply Hko |].
    intros kind Hkind. rewrite (Hko H). now rewrite (guardError_classified _ _ _ Hkind).
Qed.

Lemma edit_operations_guard_witness :
  editMessageText callbackUpdate (JString "new") JUndefined [] =
    (let c := mkCall "editMessageText"
                [JNumber 42; JNumber 100; JUndefined; JString "new"; JUndefined] in
     (inr c, [c])) /\
  editMessageCaption messageUpdate (JString "new") JUndefined [] =
    (inl (UsageError "editMessageCaption" "message"), []).
Proof.
  split.
  - exact (proj1 (proj2 (edit_operations_guard
             (mkFixed "editMessageText" 2
                (fun ctx a => editMessageText ctx (arg 0 a) (arg 1 a)))
             ltac:(listed) callbackUpdate [JString "new"; JUndefined] [])) eq_refl).
  - exact (proj2 (proj2 (proj2 (edit_operations_guard
             (mkFixed "editMessageCaption" 2
                (fun ctx a => editMessageCaption ctx (arg 0 a) (arg 1 a)))
             ltac:(listed) messageUpdate [JString "new"; JUndefined] [])) eq_refl)
             "message" eq_refl).
Defined.

(** C6 as stated fails on an update without a kind: neither a callback
    query nor an inline-message-id is present, and what [editMessageText]
    throws is the classification error, not a usage error. *)
Lemma edit_operations_counterexample :
  editable emptyUpdate = false /\
  editMessageText emptyUpdate (JString "new") JUndefined [] =
    (inl (ClassificationError (update emptyUpdate)), []) /\
  forall method kind,
    fst (editMessageText emptyUpdate (JString "new") JUndefined [])
    <> inl (UsageError method kind).
Proof.
  repeat split; try reflexivity.
  intros method kind. discriminate.
Qed.

(** ** Forum-topic operations *)

Lemma opt_prop_defined v k :
  is_undefined (v ?. k) = false -> exists o, v = JObject o.
Proof. destruct v; simpl; try discriminate. intros _. now eexists. Qed.

Lemma coalesce_chain_in cs : forall c0,
  is_nullish (fold_left coalesce cs c0) = false ->
  In (fold_left coalesce cs c0) (c0 :: cs).
Proof.
  induction cs as [| c cs IH]; intros c0 H; simpl in *.
  - now left.
  - destruct (is_nullish c0) eqn:E0.
    + rewrite (coalesce_absent _ _ E0) in *. right. now apply IH.
    + rewrite (coalesce_present _ _ E0) in *.
      destruct (IH c0 H) as [Heq | Hin]; [now left | right; now right].
Qed.

Lemma resolved_message_classified ctx o :
  getMessageFromAnySource ctx = JObject o -> exists kind, updateType ctx = inr kind.
Proof.
  intros H. rewrite getMessageFromAnySource_chain in H.
  pose proof (coalesce_chain_in
                [editedMessage ctx; callbackQuery ctx ?. "message"; channelPost ctx;
                 editedChannelPost ctx] (message ctx)) as Hin.
  rewrite H in Hin. specialize (Hin eq_refl). simpl in Hin.
  destruct Hin as [Hc | [Hc | [Hc | [Hc | [Hc | []]]]]].
  - apply (updateType_defined ctx "message"). unfold message in Hc. now rewrite Hc.
  - apply (updateType_defined ctx "edited_message"). unfold editedMessage in Hc.
    now rewrite Hc.
  - destruct (opt_prop_defined (callbackQuery ctx) "message") as [q Hq];
      [now rewrite Hc |].
    apply (updateType_defined ctx "callback_query"). unfold callbackQuery in Hq.
    now rewrite Hq.
  - apply (updateType_defined ctx "channel_post"). unfold channelPost in Hc.
    now rewrite Hc.
  - apply (updateType_defined ctx "edited_channel_post"). unfold editedChannelPost in Hc.
    now rewrite Hc.
Qed.

(** An update whose chat resolves has a kind. *)
Lemma chat_defined_classified ctx :
  is_undefined (chat ctx) = false -> exists kind, updateType ctx = inr kind.
Proof.
  intros H. rewrite chat_chain in H.
  destruct (opt_prop_defined _ _ H) as [o Ho].
  pose proof (coalesce_chain_in
                [myChatMember ctx; chatJoinRequest ctx; getMessageFromAnySource ctx]
                (chatMember ctx)) as Hin.
  rewrite Ho in Hin. specialize (Hin eq_refl). simpl in Hin.
  destruct Hin as [Hc | [Hc | [Hc | [Hc | []]]]].
  - apply (updateType_defined ctx "chat_member"). unfold chatMember in Hc. now rewrite Hc.
  - apply (updateType_defined ctx "my_chat_member"). unfold myChatMember in Hc.
    now rewrite Hc.
  - apply (updateType_defined ctx "chat_join_request"). unfold chatJoinRequest in Hc.
    now rewrite Hc.
  - now apply (resolved_message_classified ctx o).
Qed.

Lemma forumTopic_fails method ctx rest calls :
  is_undefined (message ctx ?. "message_thread_id") = true ->
  forumTopic method ctx rest calls = (inl (guardError ctx method), calls).
Proof.
  intros H. unfold forumTopic.
  destruct (is_undefined (chat ctx)) eqn:E.
  - now rewrite guard_fails.
  - rewrite guard_passes by assumption. now rewrite guard_fails.
Qed.

Lemma forumTopic_reaches method ctx rest calls :
  is_undefined (message ctx ?. "message_thread_id") = false ->
  is_nullish (chat ctx) = false ->
  forumTopic method ctx rest calls =
  (let c := mkCall method
              ([prop (chat ctx) "id"; message ctx ?. "message_thread_id"] ++ rest) in
   (inr c, calls ++ [c])).
Proof.
  intros Hthread Hchat. unfold forumTopic.
  rewrite guard_passes by now apply nullish_undefined.
  rewrite guard_passes by assumption.
  rewrite member_bind by assumption. cbv beta.
  destruct (opt_prop_defined _ _ Hthread) as [o Ho].
  rewrite member_bind by now rewrite Ho.
  now rewrite opt_prop_prop.
Qed.

(** C8, as the code has it.  The thread identifier of a forum-topic
    operation is the one of the update's top-level [message]
    ([this.message]), not of the message resolved from any source.
    Every forum-topic operation on an existing topic throws before any
    transport call when that top-level message is missing or carries no
    thread identifier: the usage error whenever the update has a kind,
    which it has as soon as its chat resolves, and the classification
    error otherwise.  So on an update without a top-level message (an
    edited message, a channel post, a callback query) it always throws,
    whatever thread the resolved message lies in.  When the top-level
    message carries a thread identifier and the chat resolves to a
    value other than null, the operation reaches the transport with the
    chat id and that thread identifier. *)
Theorem forum_topic_operations_guard (f : Fixed) :
  In f forumTopicOperations ->
  forall ctx args calls,
    (is_undefined (message ctx ?. "message_thread_id") = true ->
     f_run f ctx args calls = (inl (guardError ctx (f_method f)), calls) /\
     (forall kind, updateType ctx = inr kind ->
        f_run f ctx args calls = (inl (UsageError (f_method f) kind), calls)) /\
     (is_undefined (chat ctx) = false ->
      exists kind, f_run f ctx args calls = (inl (UsageError (f_method f) kind), calls))) /\
    (is_undefined (message ctx ?. "message_thread_id") = false ->
     is_nullish (chat ctx) = false ->
     f_run f ctx args calls =
     (let c := mkCall (f_method f)
                 ([prop (chat ctx) "id"; message ctx ?. "message_thread_id"] ++
                  positional (f_arity f) args) in
      (inr c, calls ++ [c]))) /\
    (is_nullish (message ctx) = true ->
     f_run f ctx args calls = (inl (guardError ctx (f_method f)), calls) /\
     (is_undefined (chat ctx) = false ->
      exists kind, f_run f ctx args calls = (inl (UsageError (f_method f) kind), calls))).
Proof.
  intros Hin ctx args calls.
  assert (Hfails : is_undefined (message ctx ?. "message_thread_id") = true ->
     f_run f ctx args calls = (inl (guardError ctx (f_method f)), calls) /\
     (forall kind, updateType ctx = inr kind ->
        f_run f ctx args calls = (inl (UsageError (f_method f) kind), calls)) /\
     (is_undefined (chat ctx) = false ->
      exists kind, f_run f ctx args calls = (inl (UsageError (f_method f) kind), calls))).
  { intros Hthread.
    assert (Hko : f_run f ctx args calls = (inl (guardError ctx (f_method f)), calls)).
    { unfold forumTopicOperations in Hin; simpl in Hin.
      repeat (destruct Hin as [<- | Hin];
              [cbn [f_method f_arity f_run]; now apply forumTopic_fails |]).
      contradiction. }
    split; [exact Hko | split].
    + intros kind Hkind. rewrite Hko. now rewrite (guardError_classified _ _ _ Hkind).
    + intros Hchat. destruct (chat_defined_classified ctx Hchat) as [kind Hkind].
      exists kind. rewrite Hko. now rewrite (guardError_classified _ _ _ Hkind). }
  split; [exact Hfails | split].
  - intros Hthread Hchat.
    unfold forumTopicOperations in Hin; simpl in Hin.
    repeat (destruct Hin as [<- | Hin];
            [cbn [f_method f_arity f_run]; now apply forumTopic_reaches |]).
    contradiction.
  - intros Hmessage.
    assert (Hthread : is_undefined (message ctx ?. "message_thread_id") = true)
      by now rewrite (opt_prop_absent _ _ Hmessage).
    destruct (Hfails Hthread) as (Hko & _ & Hkind). auto.
Qed.

Lemma forum_topic_operations_guard_witness :
  closeForumTopic joinRequestUpdate [] =
    (inl (UsageError "closeForumTopic" "chat_join_request"), []) /\
  editForumTopic messageUpdate (JObject [("name", JString "news")]) [] =
    (let c := mkCall "editForumTopic"
                [JNumber 42; JNumber 9; JObject [("name", JString "news")]] in
     (inr c, [c])) /\
  exists kind,
    reopenForumTopic editedMessageUpdate [] =
      (inl (UsageError "reopenForumTopic" kind), []).
Proof.
  split; [| split].
  - exact (proj1 (proj2 (proj1 (forum_topic_operations_guard
             (mkFixed "closeForumTopic" 0 (fun ctx a => closeForumTopic ctx))
             ltac:(listed) joinRequestUpdate [] []) eq_refl))
             "chat_join_request" eq_refl).
  - exact (proj1 (proj2 (forum_topic_operations_guard
             (mkFixed "editForumTopic" 1 (fun ctx a => editForumTopic ctx (arg 0 a)))
             ltac:(listed) messageUpdate [JObject [("name", JString "news")]] []))
             eq_refl eq_refl).
  - exact (proj2 (proj2 (proj2 (forum_topic_operations_guard
             (mkFixed "reopenForumTopic" 0 (fun ctx a => reopenForumTopic ctx))
             ltac:(listed) editedMessageUpdate [] [])) eq_refl) eq_refl).
Defined.

(** C8 as stated fails in three ways.  On a well-formed edited-message
    update, and likewise on a callback query, whose message lies in
    forum topic 9, the chat resolves and the originating message
    carries the thread identifier, yet [closeForumTopic] throws the
    usage error: the operation reads [this.message], which these
    updates do not have.  On an update without a kind the message
    carries no thread identifier, and [closeForumTopic] throws the
    classification error, not a usage error.  On a message that names
    thread 9 but no chat, the thread identifier is there and yet
    [closeForumTopic] throws instead of reaching the transport. *)
Lemma forum_topic_operations_counterexample :
  (chat editedMessageUpdate = sampleChat /\
   getMessageFromAnySource editedMessageUpdate ?. "message_thread_id" = JNumber 9 /\
   message editedMessageUpdate = JUndefined /\
   closeForumTopic editedMessageUpdate [] =
     (inl (UsageError "closeForumTopic" "edited_message"), [])) /\
  (chat callbackUpdate = sampleChat /\
   getMessageFromAnySource callbackUpdate ?. "message_thread_id" = JNumber 9 /\
   message callbackUpdate = JUndefined /\
   closeForumTopic callbackUpdate [] =
     (inl (UsageError "closeForumTopic" "callback_query"), [])) /\
  (message emptyUpdate ?. "message_thread_id" = JUndefined /\
   closeForumTopic emptyUpdate [] =
     (inl (ClassificationError (update emptyUpdate)), []) /\
   forall method kind,
     fst (closeForumTopic emptyUpdate []) <> inl (UsageError method kind)) /\
  (message threadWithoutChatUpdate ?. "message_thread_id" = JNumber 9 /\
   closeForumTopic threadWithoutChatUpdate [] =
     (inl (UsageError "closeForumTopic" "message"), [])).
Proof.
  repeat split; try reflexivity.
  intros method kind. discriminate.
Qed.

(** ** Reply operations *)

Lemma has_key_set (o : JsObj) k v k' :
  has_key (obj_set o k v) k' = has_key o k' || (k =? k').
Proof.
  unfold has_key, keys.
  induction o as [| [k0 v0] o IH]; simpl.
  - apply orb_false_r.
  - destruct (String.eqb_spec k0 k) as [-> | Hne]; simpl.
    + clear IH. destruct (k =? k'); simpl; [reflexivity | now rewrite orb_false_r].
    + rewrite IH. now rewrite orb_assoc.
Qed.

Lemma has_key_copy (src : JsObj) ks : forall base k,
  has_key (fold_left (fun acc k0 => obj_set acc k0 (obj_get src k0)) ks base) k =
  has_key base k || existsb (fun k0 => k0 =? k) ks.
Proof.
  induction ks as [| k0 ks IH]; intros base k; simpl.
  - now rewrite orb_false_r.
  - rewrite IH, has_key_set. now rewrite orb_assoc.
Qed.

Lemma has_key_spread base extra k :
  has_key (spread base extra) k = has_key base k || extraHas extra k.
Proof.
  destruct extra as [e |]; simpl.
  - apply has_key_copy.
  - now rewrite orb_false_r.
Qed.

(** The parameter object a reply operation hands to the transport:
    [{ message_thread_id, ...{ reply_to_message_id, ...extra } }]. *)
Lemma reply_params_lookup thread target extra k :
  obj_get (spread [("message_thread_id", thread)]
             (Some (spread [("reply_to_message_id", target)] extra))) k =
  if extraHas extra k then extraGet extra k
  else if "reply_to_message_id" =? k then target
  else if "message_thread_id" =? k then thread
  else JUndefined.
Proof.
  rewrite obj_get_spread. cbn [extraHas extraGet].
  rewrite has_key_spread, obj_get_spread.
  cbn [has_key keys map fst existsb obj_get].
  destruct (extraHas extra k), ("reply_to_message_id" =? k), ("message_thread_id" =? k);
    reflexivity.
Qed.

(** The same under [{ parse_mode, ...extra }]. *)
Lemma markdown_params_lookup thread target mode extra k :
  obj_get (spread [("message_thread_id", thread)]
             (Some (spread [("reply_to_message_id", target)]
                      (Some (spread [("parse_mode", mode)] extra))))) k =
  if extraHas extra k then extraGet extra k
  else if "reply_to_message_id" =? k then target
  else if has_key [("parse_mode", mode)] k then obj_get [("parse_mode", mode)] k
  else if "message_thread_id" =? k then thread
  else JUndefined.
Proof.
  rewrite obj_get_spread. cbn [extraHas extraGet].
  rewrite has_key_spread, obj_get_spread. cbn [extraHas extraGet].
  rewrite has_key_spread, obj_get_spread.
  cbn [has_key keys map fst existsb obj_get].
  destruct (extraHas extra k);
    (destruct (String.eqb_spec "reply_to_message_id" k) as [<- | _]; [reflexivity |]);
    destruct ("parse_mode" =? k), ("message_thread_id" =? k); reflexivity.
Qed.

(** C7.  Every reply operation whose chat resolves makes one transport
    call whose parameter object holds the caller's extras merged over
    the reply target, the [message_id] of the message resolved by the
    "any message-bearing update" rule: a key the caller supplied keeps
    the caller's value, [reply_to_message_id] included, and without it
    [reply_to_message_id] is the resolved message's id.  Below those
    lie the operation's own defaults and the thread id of the send
    operation. *)
Theorem reply_operations_parameters (r : Reply) :
  In r replyOperations ->
  forall ctx args extra calls,
    is_nullish (chat ctx) = false ->
    exists params,
      r_run r ctx args extra calls =
      (let c := mkCall (r_operation r)
                  (prop (chat ctx) "id" :: positional (r_arity r) args ++
                   [JObject params]) in
       (inr c, calls ++ [c])) /\
      (forall k, extraHas extra k = true -> obj_get params k = extraGet extra k) /\
      (extraHas extra "reply_to_message_id" = false ->
       obj_get params "reply_to_message_id" =
       getMessageFromAnySource ctx ?. "message_id") /\
      (forall k,
         obj_get params k =
         if extraHas extra k then extraGet extra k
         else if "reply_to_message_id" =? k
              then getMessageFromAnySource ctx ?. "message_id"
         else if has_key (r_defaults r) k then obj_get (r_defaults r) k
         else if "message_thread_id" =? k then getThreadId (message ctx)
         else JUndefined).
Proof.
  intros Hin ctx args extra calls Hchat.
  assert (Hall : exists params,
            r_run r ctx args extra calls =
            (let c := mkCall (r_operation r)
                        (prop (chat ctx) "id" :: positional (r_arity r) args ++
                         [JObject params]) in
             (inr c, calls ++ [c])) /\
            forall k,
              obj_get params k =
              if extraHas extra k then extraGet extra k
              else if "reply_to_message_id" =? k
                   then getMessageFromAnySource ctx ?. "message_id"
              else if has_key (r_defaults r) k then obj_get (r_defaults r) k
              else if "message_thread_id" =? k then getThreadId (message ctx)
              else JUndefined).
  { unfold replyOperations in Hin; simpl in Hin.
    repeat (destruct Hin as [<- | Hin];
            [cbn [r_operation r_arity r_defaults r_run]; eexists;
             (split;
              [ now apply send_delegates
              | intros k;
                first [ apply reply_params_lookup | apply markdown_params_lookup ] ]) |]).
    contradiction. }
  destruct Hall as (params & Hrun & Hlookup).
  exists params. split; [exact Hrun |]. split; [| split; [| exact Hlookup]].
  - intros k Hk. now rewrite Hlookup, Hk.
  - intros Hk. now rewrite Hlookup, Hk.
Qed.

Lemma reply_operations_parameters_witness :
  (exists params,
     reply messageUpdate (JString "hi")
       (Some [("reply_to_message_id", JNumber 1); ("protect_content", JBool true)]) [] =
     (let c := mkCall "sendMessage" [JNumber 42; JString "hi"; JObject params] in
      (inr c, [c])) /\
     obj_get params "reply_to_message_id" = JNumber 1 /\
     obj_get params "protect_content" = JBool true) /\
  (exists params,
     replyWithPhoto callbackUpdate (JString "file") None [] =
     (let c := mkCall "sendPhoto" [JNumber 42; JString "file"; JObject params] in
      (inr c, [c])) /\
     obj_get params "reply_to_message_id" = JNumber 100).
Proof.
  split.
  - destruct (reply_operations_parameters
                (mkReply "reply" "sendMessage" 1 []
                   (fun ctx a e => reply ctx (arg 0 a) e))
                ltac:(listed) messageUpdate [JString "hi"]
                (Some [("reply_to_message_id", JNumber 1); ("protect_content", JBool true)])
                [] eq_refl) as (params & Hrun & Hwins & _).
    exists params. split; [exact Hrun |].
    split; [exact (Hwins "reply_to_message_id" eq_refl)
           | exact (Hwins "protect_content" eq_refl)].
  - destruct (reply_operations_parameters
                (mkReply "replyWithPhoto" "sendPhoto" 1 []
                   (fun ctx a e => replyWithPhoto ctx (arg 0 a) e))
                ltac:(listed) callbackUpdate [JString "file"] None [] eq_refl)
      as (params & Hrun & _ & Htarget & _).
    exists params. split; [exact Hrun | exact (Htarget eq_refl)].
Defined.

(** ** The webhook ingestion adapter *)

Lemma endCalls_perform acts : forall res,
  endCalls (fold_left perform acts res) = endCalls res + endCount acts.
Proof.
  unfold endCount.
  induction acts as [| a acts IH]; intros res; simpl.
  - lia.
  - rewrite IH. destruct a; simpl; lia.
Qed.

Lemma writableEnded_spec res : writableEnded res = true <-> endCalls res <> 0.
Proof.
  unfold writableEnded. destruct (endCalls res); simpl; split; congruence.
Qed.

Section WebhookProperties.

Variable JSON_parse : string -> option JsValue.
Variable bufferToString : list Byte.byte -> string.
Variable json : list Byte.byte -> option JsValue.
Variable filter : IncomingMessage -> bool.
Variable updateHandler : JsValue -> HandlerRun.
Variable next : ServerResponse -> ServerResponse.

(** What the [catch] block does, by the state of the response. *)
Lemma writeHead_open code res :
  endCalls res = 0 -> writeHead code res = Some (mkResponse code 0).
Proof. unfold writeHead, writableEnded. now intros ->. Qed.

Lemma writeHead_ended code res :
  endCalls res <> 0 -> writeHead code res = None.
Proof.
  intros H. unfold writeHead. now rewrite (proj2 (writableEnded_spec res) H).
Qed.

(** On a response that has already been ended the [catch] block cannot
    answer: [writeHead] throws, nothing is written, and the adapter
    rejects with that error. *)
Lemma webhook_unparsable_on_ended_response req res :
  filter req = true ->
  parseBody JSON_parse bufferToString json req = None ->
  endCalls res <> 0 ->
  generateWebhook JSON_parse bufferToString json filter updateHandler
    req res next =
  mkOutcome res [] (Some headersSentError).
Proof.
  intros Hfilter Hparse Hended. unfold generateWebhook.
  rewrite Hfilter, Hparse. cbn [negb]. now rewrite writeHead_ended.
Qed.

(** C9.  On a request that passes the filter and whose response is
    still open, a body that cannot be parsed (an attached string or
    buffer that is not JSON, or a body stream whose reading or parsing
    fails) is answered with status 415 and the response ended, the
    handler is not invoked, and nothing is thrown to the caller; an
    attached body that is already an object is what the handler is
    invoked with, unchanged. *)
Theorem webhook_unparsable_body req res :
  filter req = true ->
  let out :=
    generateWebhook JSON_parse bufferToString json filter updateHandler
      req res next in
  let rejected := mkOutcome (mkResponse 415 1) [] None in
  (endCalls res = 0 ->
   (forall s, body req = BodyValue (JString s) -> JSON_parse s = None ->
              out = rejected) /\
   (forall bytes, body req = BodyBuffer bytes ->
                  JSON_parse (bufferToString bytes) = None ->
                  out = rejected) /\
   (forall v, body req = BodyValue v -> is_nullish v = true ->
              json (stream req) = None ->
              out = rejected)) /\
  (forall v, body req = BodyValue v -> is_object v = true ->
             dispatched out = [v]).
Proof.
  intros Hfilter out rejected. subst out rejected.
  unfold generateWebhook, parseBody. rewrite Hfilter. cbn [negb]. split.
  - intros Hopen. rewrite (writeHead_open _ _ Hopen). cbn [end_ endCalls statusCode].
    repeat split.
    + intros s -> Hparse. cbn [is_nullish]. now rewrite Hparse.
    + intros bytes -> Hparse. now rewrite Hparse.
    + intros v -> Hnull Hjson. now rewrite Hnull, Hjson.
  - intros v -> Hobj. rewrite (object_defined _ Hobj).
    destruct v; try discriminate; reflexivity.
Qed.

(** C10.  On a dispatched request the adapter calls [end()] once if the
    handler left the response open and not at all if the handler ended
    it, whether the handler returned or threw; the response is ended
    afterwards, exactly once when the handler itself ended it at most
    once on a response that was open; and what the handler threw is
    what the adapter's caller sees. *)
Theorem webhook_response_finalized req res update :
  filter req = true ->
  parseBody JSON_parse bufferToString json req = Some update ->
  let run := updateHandler update in
  let handled := fold_left perform (actions run) res in
  let out :=
    generateWebhook JSON_parse bufferToString json filter updateHandler
      req res next in
  dispatched out = [update] /\
  raised out = thrown run /\
  writableEnded (response out) = true /\
  statusCode (response out) = statusCode handled /\
  endCalls (response out) =
    (if writableEnded handled then endCalls handled else S (endCalls handled)) /\
  (endCalls res = 0 -> endCount (actions run) <= 1 -> endCalls (response out) = 1).
Proof.
  intros Hfilter Hparse run handled out. subst out.
  unfold generateWebhook. rewrite Hfilter, Hparse. simpl negb. cbv iota.
  fold run. fold handled. cbn [dispatched raised response].
  repeat split.
  - destruct (writableEnded handled) eqn:E; simpl; [exact E | reflexivity].
  - now destruct (writableEnded handled).
  - now destruct (writableEnded handled).
  - intros Hopen Honce.
    assert (Hcount : endCalls handled = endCount (actions run)).
    { subst handled. rewrite endCalls_perform. lia. }
    destruct (writableEnded handled) eqn:E; simpl.
    + apply writableEnded_spec in E. lia.
    + unfold writableEnded in E. destruct (endCalls handled); [reflexivity | discriminate].
Qed.

End WebhookProperties.

Lemma webhook_unparsable_body_witness :
  generateWebhook rejectAll (fun _ => EmptyString) (fun _ => None) (fun _ => true) endingHandler
    (mkRequest (BodyValue (JString "{")) []) freshResponse defaultNext =
  mkOutcome (mkResponse 415 1) [] None /\
  dispatched
    (generateWebhook rejectAll (fun _ => EmptyString) (fun _ => None) (fun _ => true) endingHandler
       (mkRequest (BodyValue (JObject (update messageUpdate))) []) freshResponse defaultNext) =
  [JObject (update messageUpdate)].
Proof.
  split.
  - exact (proj1 (proj1 (webhook_unparsable_body rejectAll (fun _ => EmptyString)
                    (fun _ => None) (fun _ => true) endingHandler defaultNext
                    (mkRequest (BodyValue (JString "{")) []) freshResponse eq_refl)
                    eq_refl)
                 "{" eq_refl eq_refl).
  - exact (proj2 (webhook_unparsable_body rejectAll (fun _ => EmptyString)
                    (fun _ => None) (fun _ => true) endingHandler defaultNext
                    (mkRequest (BodyValue (JObject (update messageUpdate))) [])
                    freshResponse eq_refl)
                 (JObject (update messageUpdate)) eq_refl eq_refl).
Defined.

Lemma webhook_response_finalized_witness :
  (let out := generateWebhook rejectAll (fun _ => EmptyString) (fun _ => None) (fun _ => true)
                endingHandler
                (mkRequest (BodyValue (JObject (update messageUpdate))) [])
                freshResponse defaultNext in
   raised out = Some (JString "boom") /\ endCalls (response out) = 1) /\
  (let out := generateWebhook rejectAll (fun _ => EmptyString) (fun _ => None) (fun _ => true)
                throwingHandler
                (mkRequest (BodyValue (JObject (update messageUpdate))) [])
                freshResponse defaultNext in
   raised out = Some (JString "boom") /\ endCalls (response out) = 1).
Proof.
  split.
  - destruct (webhook_response_finalized rejectAll (fun _ => EmptyString) (fun _ => None)
                (fun _ => true) endingHandler defaultNext
                (mkRequest (BodyValue (JObject (update messageUpdate))) [])
                freshResponse (JObject (update messageUpdate)) eq_refl eq_refl)
      as (_ & Hraised & _ & _ & _ & Honce).
    split; [exact Hraised | exact (Honce eq_refl ltac:(cbv; repeat constructor))].
  - destruct (webhook_response_finalized rejectAll (fun _ => EmptyString) (fun _ => None)
                (fun _ => true) throwingHandler defaultNext
                (mkRequest (BodyValue (JObject (update messageUpdate))) [])
                freshResponse (JObject (update messageUpdate)) eq_refl eq_refl)
      as (_ & Hraised & _ & _ & _ & Honce).
    split; [exact Hraised | exact (Honce eq_refl ltac:(cbv; repeat constructor))].
Defined.

(** * Further properties of the context *)

(** ** Every operation is all or nothing *)

Lemma silent_assert ctx v method : silent (assert ctx v method).
Proof.
  intros calls. unfold assert, bind, lift, throw, ret.
  destruct (is_undefined v); [| now eexists].
  destruct (updateType ctx); now eexists.
Qed.

Lemma silent_member v k : silent (member v k).
Proof.
  intros calls. unfold member, throw, ret. destruct (is_nullish v); now eexists.
Qed.

Lemma allOrNothing_telegram name args calls :
  allOrNothing (telegram name args calls) calls name.
Proof. right. eexists. split; reflexivity. Qed.

Lemma allOrNothing_bind {A} (m : M A) (k : A -> M Call) calls name :
  silent m ->
  (forall a, allOrNothing (k a calls) calls name) ->
  allOrNothing (bind m k calls) calls name.
Proof.
  intros Hm Hk. destruct (Hm calls) as [r Hr]. unfold bind. rewrite Hr.
  destruct r as [e | a]; [left; now exists e | apply Hk].
Qed.

(** Walk a guarded body: guards and property reads are silent, the
    transport call comes last. *)
Ltac all_or_nothing :=
  repeat first
    [ apply allOrNothing_telegram
    | apply allOrNothing_bind;
      [ first [apply silent_assert | apply silent_member] | intros ? ] ].

Lemma shorthand_allOrNothing field method ctx args calls :
  allOrNothing (shorthand field method ctx args calls) calls method.
Proof. unfold shorthand. all_or_nothing. Qed.

Lemma send_allOrNothing method ctx args extra calls :
  allOrNothing (send method ctx args extra calls) calls method.
Proof. unfold send. all_or_nothing. Qed.

Lemma setChatMenuButton_allOrNothing ctx menuButton calls :
  allOrNothing (setChatMenuButton ctx menuButton calls) calls "setChatMenuButton".
Proof. unfold setChatMenuButton. all_or_nothing. Qed.

Lemma getChatMenuButton_allOrNothing ctx calls :
  allOrNothing (getChatMenuButton ctx calls) calls "getChatMenuButton".
Proof. unfold getChatMenuButton. all_or_nothing. Qed.

Lemma edit_allOrNothing method ctx rest calls :
  allOrNothing (edit method ctx rest calls) calls method.
Proof. unfold edit. all_or_nothing. Qed.

Lemma forumTopic_allOrNothing method ctx rest calls :
  allOrNothing (forumTopic method ctx rest calls) calls method.
Proof. unfold forumTopic. all_or_nothing. Qed.

(** X1.  No operation of the context leaves the transport half used:
    whatever the update and the arguments, a run either throws with no
    transport call made, or returns after exactly one call, and that
    call is to the operation's own transport method.  This covers the
    81 single-guard operations, the edit and forum-topic operations,
    [deleteMessage], [forwardMessage], [copyMessage] and the
    operations that pass straight through. *)
Theorem operations_all_or_nothing ctx calls :
  (forall g, In g guardedOperations -> forall args extra,
     allOrNothing (g_run g ctx args extra calls) calls (g_operation g)) /\
  (forall f, In f (editOperations ++ forumTopicOperations ++ passthroughOperations) ->
     forall args, allOrNothing (f_run f ctx args calls) calls (f_method f)) /\
  (forall args,
     allOrNothing (setStickerSetThumb ctx args calls) calls "setStickerSetThumb") /\
  (forall messageId,
     allOrNothing (deleteMessage ctx messageId calls) calls "deleteMessage") /\
  (forall chatId extra,
     allOrNothing (forwardMessage ctx chatId extra calls) calls "forwardMessage" /\
     allOrNothing (copyMessage ctx chatId extra calls) calls "copyMessage").
Proof.
  split; [| split; [| split; [| split]]].
  - intros g Hin args extra.
    unfold guardedOperations in Hin; simpl in Hin.
    repeat (destruct Hin as [<- | Hin];
            [cbn [g_run g_operation];
             first [ apply shorthand_allOrNothing | apply send_allOrNothing
                   | apply setChatMenuButton_allOrNothing
                   | apply getChatMenuButton_allOrNothing ] |]).
    contradiction.
  - intros f Hin args.
    unfold editOperations, forumTopicOperations, passthroughOperations in Hin;
      simpl in Hin.
    repeat (destruct Hin as [<- | Hin];
            [cbn [f_run f_method];
             first [ apply edit_allOrNothing | apply forumTopic_allOrNothing
                   | apply allOrNothing_telegram ] |]).
    contradiction.
  - intros args. apply allOrNothing_telegram.
  - intros messageId. unfold deleteMessage.
    apply allOrNothing_bind; [apply silent_assert | intros _].
    destruct (negb (typeof messageId =? "undefined")); all_or_nothing.
  - intros chatId extra. split; [unfold forwardMessage | unfold copyMessage];
      all_or_nothing.
Qed.

Lemma operations_all_or_nothing_witness :
  allOrNothing (sendMessage nullChatUpdate (JString "hi") None []) [] "sendMessage" /\
  allOrNothing (closeForumTopic messageUpdate []) [] "closeForumTopic".
Proof.
  split.
  - exact (proj1 (operations_all_or_nothing nullChatUpdate [])
             (mkGuarded "sendMessage" "sendMessage" chat
                (fun ctx a e => sendMessage ctx (arg 0 a) e))
             ltac:(listed) [JString "hi"] None).
  - exact (proj1 (proj2 (operations_all_or_nothing messageUpdate []))
             (mkFixed "closeForumTopic" 0 (fun ctx a => closeForumTopic ctx))
             ltac:(listed) []).
Defined.

(** ** The parameters of the send operations *)

Lemma send_params_lookup thread extra k :
  obj_get (spread [("message_thread_id", thread)] extra) k =
  if extraHas extra k then extraGet extra k
  else if "message_thread_id" =? k then thread
  else JUndefined.
Proof.
  rewrite obj_get_spread. cbn [obj_get].
  now destruct (extraHas extra k), ("message_thread_id" =? k).
Qed.

Lemma send_params_key thread extra :
  has_key (spread [("message_thread_id", thread)] extra) "message_thread_id" = true.
Proof. rewrite has_key_spread. reflexivity. Qed.

(** X2.  Every send operation whose chat resolves makes one transport
    call: the chat id, its positional arguments, and a parameter object
    in which each key the caller supplied has the caller's value, the
    key [message_thread_id] is always there, holding
    [getThreadId(this.message)] unless the caller set it, and nothing
    else is. *)
Theorem send_operations_parameters (s : Send) :
  In s sendOperations ->
  forall ctx args extra calls,
    is_nullish (chat ctx) = false ->
    exists params,
      s_run s ctx args extra calls =
      (let c := mkCall (s_method s)
                  (prop (chat ctx) "id" :: positional (s_arity s) args ++
                   [JObject params]) in
       (inr c, calls ++ [c])) /\
      has_key params "message_thread_id" = true /\
      forall k,
        obj_get params k =
        if extraHas extra k then extraGet extra k
        else if "message_thread_id" =? k then getThreadId (message ctx)
        else JUndefined.
Proof.
  intros Hin ctx args extra calls Hchat.
  unfold sendOperations in Hin; simpl in Hin.
  repeat (destruct Hin as [<- | Hin];
          [cbn [s_method s_arity s_run]; eexists;
           (split; [now apply send_delegates
                   | split; [apply send_params_key
                            | intros k; apply send_params_lookup]]) |]).
  contradiction.
Qed.

Lemma send_operations_parameters_witness :
  exists params,
    sendPhoto messageUpdate (JString "file")
      (Some [("caption", JString "hello")]) [] =
    (let c := mkCall "sendPhoto" [JNumber 42; JString "file"; JObject params] in
     (inr c, [c])) /\
    obj_get params "caption" = JString "hello" /\
    obj_get params "message_thread_id" = JNumber 9.
Proof.
  destruct (send_operations_parameters
              (mkSend "sendPhoto" 1 (fun ctx a e => sendPhoto ctx (arg 0 a) e))
              ltac:(listed) messageUpdate [JString "file"]
              (Some [("caption", JString "hello")]) [] eq_refl)
    as (params & Hrun & _ & Hlookup).
  exists params. split; [exact Hrun |].
  split; [exact (Hlookup "caption") | exact (Hlookup "message_thread_id")].
Defined.

(** X3.  The thread default of a send or reply operation is read from
    the top-level [message] alone.  When the update carries no
    top-level message (an edited message, a callback query, a channel
    post, ...) and the caller sets no [message_thread_id], the
    parameter object holds [undefined] for it, whatever thread the
    resolved message lies in; while the reply target of a reply
    operation is still the resolved message's id. *)
Theorem thread_default_needs_message ctx :
  is_nullish (message ctx) = true ->
  is_nullish (chat ctx) = false ->
  forall extra calls,
    extraHas extra "message_thread_id" = false ->
    (forall s, In s sendOperations -> forall args,
       exists params,
         s_run s ctx args extra calls =
         (let c := mkCall (s_method s)
                     (prop (chat ctx) "id" :: positional (s_arity s) args ++
                      [JObject params]) in
          (inr c, calls ++ [c])) /\
         obj_get params "message_thread_id" = JUndefined) /\
    (forall r, In r replyOperations -> forall args,
       extraHas extra "reply_to_message_id" = false ->
       exists params,
         r_run r ctx args extra calls =
         (let c := mkCall (r_operation r)
                     (prop (chat ctx) "id" :: positional (r_arity r) args ++
                      [JObject params]) in
          (inr c, calls ++ [c])) /\
         obj_get params "message_thread_id" = JUndefined /\
         obj_get params "reply_to_message_id" =
         getMessageFromAnySource ctx ?. "message_id").
Proof.
  intros Hmsg Hchat extra calls Hthread.
  assert (Hdefault : getThreadId (message ctx) = JUndefined).
  { unfold getThreadId. now rewrite (opt_prop_absent _ _ Hmsg). }
  split.
  - intros s Hin args.
    unfold sendOperations in Hin; simpl in Hin.
    repeat (destruct Hin as [<- | Hin];
            [cbn [s_method s_arity s_run]; eexists;
             (split; [now apply send_delegates
                     | now rewrite send_params_lookup, Hthread, Hdefault]) |]).
    contradiction.
  - intros r Hin args Hreply.
    unfold replyOperations in Hin; simpl in Hin.
    repeat (destruct Hin as [<- | Hin];
            [cbn [r_operation r_arity r_run]; eexists;
             (split;
              [ now apply send_delegates
              | split;
                [ unfold reply_extra;
                  first [ rewrite markdown_params_lookup
                        | rewrite reply_params_lookup ];
                  now rewrite Hthread, Hdefault
                | unfold reply_extra;
                  first [ rewrite markdown_params_lookup
                        | rewrite reply_params_lookup ];
                  now rewrite Hreply ] ]) |]).
    contradiction.
Qed.

Lemma thread_default_needs_message_witness :
  getThreadId (getMessageFromAnySource editedMessageUpdate) = JNumber 9 /\
  exists params,
    reply editedMessageUpdate (JString "hi") None [] =
    (let c := mkCall "sendMessage" [JNumber 42; JString "hi"; JObject params] in
     (inr c, [c])) /\
    obj_get params "message_thread_id" = JUndefined /\
    obj_get params "reply_to_message_id" = JNumber 100.
Proof.
  split; [reflexivity |].
  exact (proj2 (thread_default_needs_message editedMessageUpdate eq_refl eq_refl None []
                  eq_refl)
           (mkReply "reply" "sendMessage" 1 []
              (fun ctx a e => reply ctx (arg 0 a) e))
           ltac:(listed) [JString "hi"] eq_refl).
Defined.

(** ** Operations on the resolved message *)

Lemma typeof_undefined v : (typeof v =? "undefined") = is_undefined v.
Proof. now destruct v. Qed.

Lemma member_throws {A} v p (k : JsValue -> M A) calls :
  is_nullish v = true ->
  bind (member v p) k calls = (inl (NullReference p), calls).
Proof. intros H. unfold bind, member. now rewrite H. Qed.

(** X4.  [deleteMessage] needs the chat in every case.  With a message
    id given (anything but [undefined], [null] included) it deletes
    that id in the current chat without looking for a message; with
    none given and no message resolved it throws a usage error and
    makes no call. *)
Theorem deleteMessage_cases ctx messageId calls :
  (is_undefined (chat ctx) = true ->
   deleteMessage ctx messageId calls = (inl (guardError ctx "deleteMessage"), calls)) /\
  (is_nullish (chat ctx) = false -> is_undefined messageId = false ->
   deleteMessage ctx messageId calls =
   (let c := mkCall "deleteMessage" [prop (chat ctx) "id"; messageId] in
    (inr c, calls ++ [c]))) /\
  (is_nullish (chat ctx) = false -> is_undefined messageId = true ->
   is_undefined (getMessageFromAnySource ctx) = true ->
   exists kind,
     updateType ctx = inr kind /\
     deleteMessage ctx messageId calls = (inl (UsageError "deleteMessage" kind), calls)).
Proof.
  split; [| split].
  - intros H. unfold deleteMessage. now rewrite guard_fails.
  - intros Hchat Hid. unfold deleteMessage.
    rewrite guard_passes by now apply nullish_undefined.
    rewrite typeof_undefined, Hid. cbn [negb].
    now rewrite member_bind.
  - intros Hchat Hid Hmsg.
    destruct (chat_defined_classified ctx (nullish_undefined _ Hchat)) as [kind Hkind].
    exists kind. split; [exact Hkind |].
    unfold deleteMessage.
    rewrite guard_passes by now apply nullish_undefined.
    rewrite typeof_undefined, Hid. cbn [negb].
    rewrite guard_fails by assumption.
    now rewrite (guardError_classified _ _ _ Hkind).
Qed.

Lemma deleteMessage_cases_witness :
  deleteMessage chatMemberUpdate (JNumber 7) [] =
    (let c := mkCall "deleteMessage" [JNumber 42; JNumber 7] in (inr c, [c])) /\
  deleteMessage chatMemberUpdate JNull [] =
    (let c := mkCall "deleteMessage" [JNumber 42; JNull] in (inr c, [c])) /\
  exists kind,
    updateType chatMemberUpdate = inr kind /\
    deleteMessage chatMemberUpdate JUndefined [] =
      (inl (UsageError "deleteMessage" kind), []).
Proof.
  split; [| split].
  - exact (proj1 (proj2 (deleteMessage_cases chatMemberUpdate (JNumber 7) []))
             eq_refl eq_refl).
  - exact (proj1 (proj2 (deleteMessage_cases chatMemberUpdate JNull []))
             eq_refl eq_refl).
  - exact (proj2 (proj2 (deleteMessage_cases chatMemberUpdate JUndefined []))
             eq_refl eq_refl eq_refl).
Defined.

Lemma forward_like_reaches name ctx chatId extra calls
    (run : M Call) :
  run =
    (let message := getMessageFromAnySource ctx in
     assert ctx message name ;;
     message_chat <- member message "chat" ;;
     id <- member message_chat "id" ;;
     message_id <- member message "message_id" ;;
     telegram name [chatId; id; message_id; extra]) ->
  (is_undefined (getMessageFromAnySource ctx) = true ->
   run calls = (inl (guardError ctx name), calls)) /\
  ((exists c, run calls = (inr c, calls ++ [c])) <->
   is_nullish (getMessageFromAnySource ctx) = false /\
   is_nullish (prop (getMessageFromAnySource ctx) "chat") = false).
Proof.
  intros ->. cbv zeta. split.
  - intros H. now rewrite guard_fails.
  - destruct (is_undefined (getMessageFromAnySource ctx)) eqn:Hu.
    { rewrite guard_fails by assumption.
      rewrite (undefined_nullish _ Hu). split; [intros [c Hc] | intros [H _]];
        discriminate. }
    rewrite guard_passes by assumption.
    destruct (is_nullish (getMessageFromAnySource ctx)) eqn:Hn.
    { rewrite member_throws by assumption.
      split; [intros [c Hc] | intros [H _]]; discriminate. }
    rewrite member_bind by assumption. cbv beta.
    destruct (is_nullish (prop (getMessageFromAnySource ctx) "chat")) eqn:Hc.
    { rewrite member_throws by assumption.
      split; [intros [c Hc'] | intros [_ H]]; discriminate. }
    rewrite member_bind by assumption. cbv beta.
    rewrite member_bind by assumption. cbv beta.
    split; [auto |]. intros _. eexists. reflexivity.
Qed.

(** X5.  [forwardMessage] and [copyMessage] never consult the context's
    chat: they reach the transport exactly when a message resolves and
    that message itself carries a chat; with no message resolved they
    throw the guard's error and make no call. *)
Theorem forward_copy_reach ctx chatId extra calls :
  (is_undefined (getMessageFromAnySource ctx) = true ->
   forwardMessage ctx chatId extra calls = (inl (guardError ctx "forwardMessage"), calls) /\
   copyMessage ctx chatId extra calls = (inl (guardError ctx "copyMessage"), calls)) /\
  ((exists c, forwardMessage ctx chatId extra calls = (inr c, calls ++ [c])) <->
   is_nullish (getMessageFromAnySource ctx) = false /\
   is_nullish (prop (getMessageFromAnySource ctx) "chat") = false) /\
  ((exists c, copyMessage ctx chatId extra calls = (inr c, calls ++ [c])) <->
   is_nullish (getMessageFromAnySource ctx) = false /\
   is_nullish (prop (getMessageFromAnySource ctx) "chat") = false).
Proof.
  destruct (forward_like_reaches "forwardMessage" ctx chatId extra calls
              (forwardMessage ctx chatId extra) eq_refl) as [Hf1 Hf2].
  destruct (forward_like_reaches "copyMessage" ctx chatId extra calls
              (copyMessage ctx chatId extra) eq_refl) as [Hc1 Hc2].
  split; [| split]; auto.
Qed.

Lemma forward_copy_reach_witness :
  forwardMessage chatMemberUpdate (JNumber 77) JUndefined [] =
    (inl (guardError chatMemberUpdate "forwardMessage"), []) /\
  exists c, copyMessage callbackUpdate (JNumber 77) JUndefined [] = (inr c, [c]).
Proof.
  split.
  - exact (proj1 (proj1 (forward_copy_reach chatMemberUpdate (JNumber 77) JUndefined [])
                    eq_refl)).
  - exact (proj2 (proj2 (proj2 (forward_copy_reach callbackUpdate (JNumber 77)
                                  JUndefined [])))
             (conj eq_refl eq_refl)).
Defined.

(** ** Accessors and the classifier *)

Lemma from_defined_classified ctx :
  is_undefined (from ctx) = false -> exists kind, updateType ctx = inr kind.
Proof.
  intros H. rewrite from_chain in H.
  destruct (opt_prop_defined _ _ H) as [o Ho].
  pose proof (coalesce_chain_in
                [inlineQuery ctx; shippingQuery ctx; preCheckoutQuery ctx;
                 chosenInlineResult ctx; chatMember ctx; myChatMember ctx;
                 chatJoinRequest ctx; getMessageFromAnySource ctx]
                (callbackQuery ctx)) as Hin.
  rewrite Ho in Hin. specialize (Hin eq_refl). simpl in Hin.
  unfold_projections.
  destruct Hin as [Hc | [Hc | [Hc | [Hc | [Hc | [Hc | [Hc | [Hc | [Hc | []]]]]]]]]];
    first [ now apply (resolved_message_classified ctx o)
          | eapply updateType_defined; rewrite Hc; reflexivity ].
Qed.

Lemma inlineMessageId_defined_classified ctx :
  is_undefined (inlineMessageId ctx) = false -> exists kind, updateType ctx = inr kind.
Proof.
  intros H. unfold inlineMessageId in H.
  destruct (opt_prop_defined _ _ H) as [o Ho].
  pose proof (coalesce_chain_in [chosenInlineResult ctx] (callbackQuery ctx)) as Hin.
  simpl in Hin. rewrite Ho in Hin. specialize (Hin eq_refl).
  unfold_projections.
  destruct Hin as [Hc | [Hc | []]];
    eapply updateType_defined; rewrite Hc; reflexivity.
Qed.

(** X6.  As soon as one of the resolved accessors [chat], [from],
    [senderChat] or [inlineMessageId] yields a value, the update has a
    kind; so in such a context every guard that fails throws the usage
    error naming the operation and that kind, never the classification
    error. *)
Theorem resolved_accessor_classified ctx :
  is_undefined (chat ctx) = false \/ is_undefined (from ctx) = false \/
  is_undefined (senderChat ctx) = false \/ is_undefined (inlineMessageId ctx) = false ->
  exists kind,
    updateType ctx = inr kind /\
    forall method, guardError ctx method = UsageError method kind.
Proof.
  intros H.
  assert (Hkind : exists kind, updateType ctx = inr kind).
  { destruct H as [H | [H | [H | H]]].
    - now apply chat_defined_classified.
    - now apply from_defined_classified.
    - unfold senderChat in H. destruct (opt_prop_defined _ _ H) as [o Ho].
      now apply (resolved_message_classified ctx o).
    - now apply inlineMessageId_defined_classified. }
  destruct Hkind as [kind Hkind]. exists kind. split; [exact Hkind |].
  intros method. now apply guardError_classified.
Qed.

Lemma resolved_accessor_classified_witness :
  exists kind,
    updateType chosenResultUpdate = inr kind /\
    forall method, guardError chosenResultUpdate method = UsageError method kind.
Proof.
  exact (resolved_accessor_classified chosenResultUpdate
           (or_intror (or_introl eq_refl))).
Defined.

Lemma obj_get_absent (o : JsObj) k : has_key o k = false -> obj_get o k = JUndefined.
Proof.
  unfold has_key, keys.
  induction o as [| [k' v] o IH]; simpl; [reflexivity |].
  destruct (k' =? k); simpl; [discriminate | exact IH].
Qed.

Lemma has_key_in (o : JsObj) k : has_key o k = true <-> In k (keys o).
Proof.
  unfold has_key. rewrite existsb_exists. split.
  - intros (k' & Hin & Heq). apply String.eqb_eq in Heq. now subst.
  - intros Hin. exists k. split; [exact Hin | apply String.eqb_refl].
Qed.

Lemma obj_get_app_l (o o' : JsObj) k :
  In k (keys o) -> obj_get (o ++ o') k = obj_get o k.
Proof.
  induction o as [| [k' v] o IH]; simpl; [contradiction |].
  destruct (String.eqb_spec k' k); [reflexivity |].
  intros [Heq | Hin]; [congruence | now apply IH].
Qed.

Lemma obj_get_app_r (o o' : JsObj) k :
  ~ In k (keys o) -> obj_get (o ++ o') k = obj_get o' k.
Proof.
  induction o as [| [k' v] o IH]; simpl; [reflexivity |].
  intros Hnot. destruct (String.eqb_spec k' k) as [-> | Hne].
  - exfalso. apply Hnot. now left.
  - apply IH. intros Hin. apply Hnot. now right.
Qed.

Lemma obj_get_entry (o : JsObj) k : In k (keys o) -> In (k, obj_get o k) o.
Proof.
  induction o as [| [k' v] o IH]; simpl; [contradiction |].
  destruct (String.eqb_spec k' k) as [-> | Hne].
  - intros _. now left.
  - intros [Heq | Hin]; [congruence | right; now apply IH].
Qed.

(** X7.  First match wins.  If no top-level entry before [k] holds a
    value of type ["object"] and [k], met there for the first time,
    does, the kind is [k], whatever follows it, other populated kinds
    included. *)
Theorem updateType_first_match before k v after info :
  Forall (fun entry => (typeof (snd entry) =? "object") = false) before ->
  ~ In k (keys before) ->
  (typeof v =? "object") = true ->
  updateType (mkContext (before ++ (k, v) :: after) info) = inr k.
Proof.
  intros Hbefore Hnot Hv.
  apply updateType_first_object_key.
  exists (keys before), (keys after). cbn [update].
  split; [unfold keys; now rewrite map_app |]. split.
  - rewrite obj_get_app_r by exact Hnot. simpl. now rewrite String.eqb_refl.
  - intros k' Hk'. rewrite obj_get_app_l by exact Hk'.
    rewrite Forall_forall in Hbefore.
    exact (Hbefore _ (obj_get_entry _ _ Hk')).
Qed.

Lemma updateType_first_match_witness :
  updateType pollThenMessageUpdate = inr "poll".
Proof.
  apply (updateType_first_match [("update_id", JNumber 1)] "poll"
           (JObject [("id", JString "7")]) [("message", sampleMessage)] JUndefined).
  - repeat constructor.
  - intros [H | []]. discriminate.
  - reflexivity.
Defined.

(** ** Editing in inline mode *)

Lemma inline_result_only ctx :
  populatedOnly ctx "chosen_inline_result" ->
  chat ctx = JUndefined /\
  is_nullish (callbackQuery ctx) = true /\
  inlineMessageId ctx = prop (chosenInlineResult ctx) "inline_message_id".
Proof.
  intros H. pose proof (object_defined _ (proj1 H)) as Hhere.
  absent ctx H "chat_member". absent ctx H "my_chat_member".
  absent ctx H "chat_join_request". absent ctx H "message".
  absent ctx H "edited_message". absent ctx H "callback_query".
  absent ctx H "channel_post". absent ctx H "edited_channel_post".
  unfold chat, getMessageFromAnySource, inlineMessageId.
  unfold_projections.
  repeat split; do 3 (resolve; cbn [is_nullish]); reflexivity.
Qed.

(** X8.  On an update populated only with a chosen inline result, every
    edit operation is addressed by the inline-message-id alone: if the
    result carries one, the transport gets [undefined] for the chat id
    and the message id and that inline-message-id; if it carries none,
    the operation throws the usage error and makes no call. *)
Theorem edit_inline_mode (f : Fixed) :
  In f editOperations ->
  forall ctx args calls,
    populatedOnly ctx "chosen_inline_result" ->
    (is_undefined (prop (chosenInlineResult ctx) "inline_message_id") = false ->
     f_run f ctx args calls =
     (let c := mkCall (f_method f)
                 ([JUndefined; JUndefined;
                   prop (chosenInlineResult ctx) "inline_message_id"] ++
                  positional (f_arity f) args) in
      (inr c, calls ++ [c]))) /\
    (is_undefined (prop (chosenInlineResult ctx) "inline_message_id") = true ->
     exists kind,
       updateType ctx = inr kind /\
       f_run f ctx args calls = (inl (UsageError (f_method f) kind), calls)).
Proof.
  intros Hin ctx args calls Honly.
  destruct (inline_result_only ctx Honly) as (Hchat & Hcq & Hid).
  assert (Heditable : editable ctx =
            negb (is_undefined (prop (chosenInlineResult ctx) "inline_message_id"))).
  { unfold editable. now rewrite Hcq, Hid. }
  split.
  - intros Hdef.
    assert (Hok : editable ctx = true) by now rewrite Heditable, Hdef.
    unfold editOperations in Hin; simpl in Hin.
    repeat (destruct Hin as [<- | Hin];
            [cbn [f_method f_arity f_run];
             etransitivity; [now apply edit_proceeds |];
             rewrite Hchat, Hid, (opt_prop_absent _ "message" Hcq); reflexivity |]).
    contradiction.
  - intros Hundef.
    assert (Hko : editable ctx = false) by now rewrite Heditable, Hundef.
    destruct (updateType_defined ctx "chosen_inline_result" (proj1 Honly))
      as [kind Hkind].
    exists kind. split; [exact Hkind |].
    unfold editOperations in Hin; simpl in Hin.
    repeat (destruct Hin as [<- | Hin];
            [cbn [f_method f_arity f_run];
             etransitivity; [now apply edit_fails |];
             now rewrite (guardError_classified _ _ _ Hkind) |]).
    contradiction.
Qed.

Lemma edit_inline_mode_witness :
  editMessageReplyMarkup chosenResultUpdate JUndefined [] =
  (let c := mkCall "editMessageReplyMarkup"
              [JUndefined; JUndefined; JString "im"; JUndefined] in
   (inr c, [c])).
Proof.
  exact (proj1 (edit_inline_mode
                  (mkFixed "editMessageReplyMarkup" 1
                     (fun ctx a => editMessageReplyMarkup ctx (arg 0 a)))
                  ltac:(listed) chosenResultUpdate [JUndefined] []
                  ltac:(populated_only)) eq_refl).
Defined.

(** ** [has] *)

Lemma has_loop_exists u filters :
  has_loop u filters = true <-> exists f, In f filters /\ passes u f = true.
Proof.
  induction filters as [| f rest IH]; simpl.
  - split; [discriminate | intros (f & [] & _)].
  - destruct (passes u f) eqn:E.
    + split; [| reflexivity]. intros _. exists f. auto.
    + rewrite IH. split.
      * intros (g & Hin & Hg). exists g. auto.
      * intros (g & [<- | Hin] & Hg); [congruence | now exists g].
Qed.

Lemma in_object_spec k (o : JsObj) :
  in_object k o = true <-> In k (keys o) \/ In k objectPrototypeNames.
Proof.
  unfold in_object. rewrite orb_true_iff, has_key_in, existsb_exists.
  split; (intros [H | H]; [now left | right]).
  - destruct H as (name & Hin & Heq). apply String.eqb_eq in Heq. now subst.
  - exists k. split; [exact H | apply String.eqb_refl].
Qed.

(** X9.  [has] with a list of filters holds exactly when one of the
    filters holds on its own (never for the empty list); a kind filter
    holds exactly when the update has that key, whatever its value, or
    the name is one every object inherits; so for a name that is not
    inherited it tests the presence of the key; and the kind the
    classifier returns always passes [has]. *)
Theorem has_semantics ctx :
  (forall filters,
     has ctx (Many filters) = true <->
     exists f, In f filters /\ has ctx (One f) = true) /\
  (forall kind,
     has ctx (One (Kind kind)) = true <->
     In kind (keys (update ctx)) \/ In kind objectPrototypeNames) /\
  (forall kind, ~ In kind objectPrototypeNames ->
     (has ctx (One (Kind kind)) = true <-> In kind (keys (update ctx)))) /\
  (forall kind, updateType ctx = inr kind -> has ctx (One (Kind kind)) = true).
Proof.
  assert (Hone : forall f, has ctx (One f) = passes (update ctx) f).
  { intros f. unfold has. simpl. now destruct (passes (update ctx) f). }
  assert (Hkind : forall kind,
            has ctx (One (Kind kind)) = true <->
            In kind (keys (update ctx)) \/ In kind objectPrototypeNames).
  { intros kind. rewrite Hone. cbn [passes]. apply in_object_spec. }
  split; [| split; [| split]].
  - intros filters. unfold has at 1. rewrite has_loop_exists.
    split; intros (f & Hin & Hf); exists f; split; auto;
      [now rewrite Hone | now rewrite <- Hone].
  - exact Hkind.
  - intros kind Hown. rewrite Hkind. tauto.
  - intros kind Hu. apply Hkind. left.
    apply updateType_first_object_key in Hu.
    destruct Hu as (before & after & Hsplit & _).
    rewrite Hsplit. apply in_or_app. right. now left.
Qed.

Lemma has_semantics_witness :
  has nullMessageUpdate (One (Kind "message")) = true /\
  has callbackUpdate (Many [Kind "message"; Kind "callback_query"]) = true /\
  has messageUpdate (One (Kind "toString")) = true /\
  has messageUpdate (One (Kind "poll")) <> true.
Proof.
  split; [| split; [| split]].
  - exact (proj2 (proj2 (proj2 (has_semantics nullMessageUpdate))) "message" eq_refl).
  - apply (proj2 (proj1 (has_semantics callbackUpdate)
                    [Kind "message"; Kind "callback_query"])).
    exists (Kind "callback_query"). split; [simpl; tauto | reflexivity].
  - apply (proj2 (proj1 (proj2 (has_semantics messageUpdate)) "toString")).
    right. simpl. tauto.
  - intros H.
    apply (proj1 (proj1 (proj2 (proj2 (has_semantics messageUpdate))) "poll"
                    ltac:(simpl; intuition discriminate))) in H.
    simpl in H. intuition discriminate.
Defined.

(** ** [passportData] and [webAppData] *)

(** X10.  [passportData] reads [message.passport_data] and nothing
    else: on a missing or null message and on any message that is an
    object it equals [this.message?.passport_data] (the [in] test never
    changes the value); it throws exactly when the message is a
    primitive. *)
Theorem passportData_reads ctx :
  passportData ctx =
  if is_nullish (message ctx) || is_object (message ctx)
  then inr (message ctx ?. "passport_data")
  else inl (NotAnObject "passport_data").
Proof.
  unfold passportData.
  destruct (message ctx) as [| | b | n | s | items | o]; try reflexivity.
  cbn [is_nullish is_object orb js_in opt_prop prop].
  destruct (has_key o "passport_data") eqn:E; [reflexivity |].
  now rewrite (obj_get_absent _ _ E).
Qed.

Lemma obj_get_has_key (o : JsObj) k : is_nullish (obj_get o k) = false -> has_key o k = true.
Proof.
  intros H. destruct (has_key o k) eqn:E; [reflexivity |].
  now rewrite (obj_get_absent _ _ E) in H.
Qed.

(** X11.  [webAppData] yields a value exactly when the top-level
    message is an object whose [web_app_data] is neither null nor
    undefined; the value then carries that object's [data], which
    [text()] returns as it is, and its [button_text].  Without a
    message, or on a message object without the key, it is
    [undefined]. *)
Theorem webAppData_defined ctx :
  (forall w,
     webAppData ctx = inr (Some w) <->
     exists o,
       message ctx = JObject o /\
       is_nullish (obj_get o "web_app_data") = false /\
       w = mkWebAppData (prop (obj_get o "web_app_data") "data")
                        (prop (obj_get o "web_app_data") "button_text")) /\
  (forall w, webAppData ctx = inr (Some w) ->
     wad_text w = message ctx ?. "web_app_data" ?. "data") /\
  (is_nullish (message ctx) = true -> webAppData ctx = inr None) /\
  (forall o, message ctx = JObject o -> has_key o "web_app_data" = false ->
     webAppData ctx = inr None).
Proof.
  assert (Hiff : forall w,
     webAppData ctx = inr (Some w) <->
     exists o,
       message ctx = JObject o /\
       is_nullish (obj_get o "web_app_data") = false /\
       w = mkWebAppData (prop (obj_get o "web_app_data") "data")
                        (prop (obj_get o "web_app_data") "button_text")).
  { intros w. unfold webAppData, message.
    destruct (obj_get (update ctx) "message") as [| | b | n | s | items | o] eqn:Hm;
      cbn [truthy js_in prop];
      try (split;
           [ destruct (has_key (update ctx) "message" && _); discriminate
           | intros (o' & Ho' & _); discriminate ]).
    assert (Hk : has_key (update ctx) "message" = true)
      by (apply obj_get_has_key; now rewrite Hm).
    rewrite Hk. cbn [andb].
    destruct (has_key o "web_app_data") eqn:Ekey.
    - destruct (is_nullish (obj_get o "web_app_data")) eqn:Enull.
      + split; [discriminate |]. intros (o' & [= <-] & Hn & _). congruence.
      + split.
        * intros [= <-]. exists o. auto.
        * intros (o' & [= <-] & _ & ->). reflexivity.
    - split; [discriminate |]. intros (o' & [= <-] & Hn & _).
      rewrite (obj_get_absent _ _ Ekey) in Hn. discriminate. }
  split; [exact Hiff | split; [| split]].
  - intros w Hw. apply Hiff in Hw. destruct Hw as (o & Ho & Hn & ->).
    rewrite Ho. cbn [wad_text wad_data].
    change (JObject o ?. "web_app_data") with (obj_get o "web_app_data").
    now rewrite opt_prop_present.
  - unfold webAppData, message. intros Hn.
    destruct (obj_get (update ctx) "message"); try discriminate;
      cbn [truthy]; now rewrite andb_false_r.
  - intros o Ho Hkey. unfold webAppData. unfold message in Ho. rewrite Ho.
    assert (Hk : has_key (update ctx) "message" = true)
      by (apply obj_get_has_key; now rewrite Ho).
    rewrite Hk. cbn [andb truthy js_in]. now rewrite Hkey.
Qed.

Lemma webAppData_defined_witness :
  exists w, webAppData webAppUpdate = inr (Some w) /\ wad_text w = JString "[1]".
Proof.
  eexists. split.
  - apply (proj2 (proj1 (webAppData_defined webAppUpdate) _)).
    eexists. split; [reflexivity |]. split; reflexivity.
  - reflexivity.
Defined.

(** * Further properties of the webhook adapter *)

Section WebhookDispatch.

Variable JSON_parse : string -> option JsValue.
Variable bufferToString : list Byte.byte -> string.
Variable json : list Byte.byte -> option JsValue.
Variable filter : IncomingMessage -> bool.
Variable updateHandler : JsValue -> HandlerRun.

(** X12.  On a request that passes the filter the handler is invoked
    with: the JSON parsed from the decoded text of an attached buffer;
    the JSON parsed from an attached string; the JSON read from the
    body stream when the attached body is null or undefined; and any
    other attached value as it is, falsy ones such as [0] and [false]
    included. *)
Theorem webhook_dispatches req res next :
  filter req = true ->
  let out :=
    generateWebhook JSON_parse bufferToString json filter updateHandler
      req res next in
  (forall bytes u, body req = BodyBuffer bytes ->
     JSON_parse (bufferToString bytes) = Some u -> dispatched out = [u]) /\
  (forall s u, body req = BodyValue (JString s) ->
     JSON_parse s = Some u -> dispatched out = [u]) /\
  (forall v u, body req = BodyValue v -> is_nullish v = true ->
     json (stream req) = Some u -> dispatched out = [u]) /\
  (forall v, body req = BodyValue v -> is_nullish v = false ->
     (forall s, v <> JString s) -> dispatched out = [v]).
Proof.
  intros Hfilter out. subst out.
  unfold generateWebhook, parseBody. rewrite Hfilter. cbn [negb].
  repeat split.
  - intros bytes u -> Hparse. now rewrite Hparse.
  - intros s u -> Hparse. cbn [is_nullish]. now rewrite Hparse.
  - intros v u -> Hnull Hjson. now rewrite Hnull, Hjson.
  - intros v -> Hnull Hstring. rewrite Hnull.
    destruct v; try reflexivity. now elim (Hstring s).
Qed.

(** X13.  Every request gets exactly one response.  With the default
    [next], a response that is still open on entry and a handler that
    ends the response at most once, the response has been ended exactly
    once when the adapter is done, whichever way the request went; the
    handler has been invoked at most once; and when it has not been
    invoked the status is 403 (filter) or 415 (body) and nothing is
    raised.  A request the filter turns down is answered 403 without
    its body being looked at. *)
Theorem webhook_one_response req res :
  endCalls res = 0 ->
  (forall u, endCount (actions (updateHandler u)) <= 1) ->
  let out :=
    generateWebhook JSON_parse bufferToString json filter updateHandler
      req res defaultNext in
  endCalls (response out) = 1 /\
  length (dispatched out) <= 1 /\
  (dispatched out = [] ->
   raised out = None /\
   (statusCode (response out) = 403%Z \/ statusCode (response out) = 415%Z)) /\
  (filter req = false -> out = mkOutcome (mkResponse 403 1) [] None).
Proof.
  intros Hopen Honce out. subst out. unfold generateWebhook.
  destruct (filter req); cbn [negb].
  - destruct (parseBody JSON_parse bufferToString json req) as [u |].
    + cbn [response dispatched raised].
      split; [| split; [| split]].
      * pose proof (endCalls_perform (actions (updateHandler u)) res) as Hcount.
        specialize (Honce u).
        destruct (writableEnded _) eqn:E; cbn [negb].
        -- apply writableEnded_spec in E. lia.
        -- unfold writableEnded in E. cbn [end_ endCalls].
           destruct (endCalls (fold_left perform (actions (updateHandler u)) res));
             [reflexivity | discriminate].
      * simpl. lia.
      * discriminate.
      * discriminate.
    + rewrite (writeHead_open _ _ Hopen).
      cbn [response dispatched raised end_ statusCode endCalls].
      split; [reflexivity | split; [simpl; lia | split]].
      * intros _. split; [reflexivity | now right].
      * discriminate.
  - unfold defaultNext.
    cbn [response dispatched raised end_ setStatusCode statusCode endCalls].
    rewrite Hopen.
    split; [reflexivity | split; [simpl; lia | split]].
    + intros _. split; [reflexivity | now left].
    + intros _. unfold end_, setStatusCode. cbn [endCalls statusCode].
      now rewrite Hopen.
Qed.

End WebhookDispatch.

Lemma webhook_dispatches_witness :
  dispatched
    (generateWebhook (fun _ => Some JNull) (fun _ => EmptyString) (fun _ => None)
       (fun _ => true) throwingHandler
       (mkRequest (BodyValue (JBool false)) []) freshResponse defaultNext) =
  [JBool false].
Proof.
  refine (proj2 (proj2 (proj2 (webhook_dispatches (fun _ => Some JNull)
            (fun _ => EmptyString) (fun _ => None) (fun _ => true) throwingHandler
            (mkRequest (BodyValue (JBool false)) []) freshResponse defaultNext eq_refl)))
            (JBool false) eq_refl eq_refl _).
  intros s. discriminate.
Defined.

Lemma webhook_one_response_witness :
  endCalls
    (response
       (generateWebhook rejectAll (fun _ => EmptyString) (fun _ => None)
          (fun _ => false) endingHandler
          (mkRequest (BodyValue JUndefined) []) freshResponse defaultNext)) = 1.
Proof.
  refine (proj1 (webhook_one_response rejectAll (fun _ => EmptyString) (fun _ => None)
            (fun _ => false) endingHandler
            (mkRequest (BodyValue JUndefined) []) freshResponse eq_refl _)).
  intros u. apply le_n.
Defined.

(** * Remote-API failures *)

Lemma colonFree_uint d : colonFree (NilEmpty.string_of_uint d) = true.
Proof. induction d; simpl; auto. Qed.

Lemma colonFree_number n :
  colonFree (NilZero.string_of_int (Z.to_int n)) = true.
Proof.
  destruct (Z.to_int n) as [d | d]; cbn [NilZero.string_of_int colonFree];
    destruct d; try reflexivity;
    apply (colonFree_uint (_ _)).
Qed.

Lemma split_at_colon s1 : forall s2 t1 t2,
  colonFree s1 = true -> colonFree s2 = true ->
  (s1 ++ String ":" t1)%string = (s2 ++ String ":" t2)%string ->
  s1 = s2 /\ t1 = t2.
Proof.
  induction s1 as [| c1 s1 IH]; intros [| c2 s2] t1 t2 H1 H2 Heq; simpl in *.
  - now injection Heq as ->.
  - injection Heq as <- _. discriminate.
  - injection Heq as -> _. discriminate.
  - injection Heq as -> Hrest.
    apply andb_true_iff in H1, H2.
    destruct (IH s2 t1 t2 (proj2 H1) (proj2 H2) Hrest) as [-> ->]. auto.
Qed.

Lemma to_int_not_nil n : Z.to_int n <> Decimal.Pos Decimal.Nil /\
                         Z.to_int n <> Decimal.Neg Decimal.Nil.
Proof.
  destruct n as [| p | p]; simpl; split; try discriminate;
    intros [= H]; now apply (DecimalPos.Unsigned.to_uint_nonnil p).
Qed.

Lemma decimal_inj n1 n2 :
  NilZero.string_of_int (Z.to_int n1) = NilZero.string_of_int (Z.to_int n2) ->
  n1 = n2.
Proof.
  intros H. apply DecimalZ.to_int_inj.
  assert (Hparse : NilZero.int_of_string (NilZero.string_of_int (Z.to_int n1)) =
                   NilZero.int_of_string (NilZero.string_of_int (Z.to_int n2)))
    by now rewrite H.
  destruct (to_int_not_nil n1) as [Hp1 Hn1], (to_int_not_nil n2) as [Hp2 Hn2].
  rewrite !NilZero.isi in Hparse by assumption.
  now injection Hparse.
Qed.

(** X14.  For error codes that are safe integers, the message of a
    [TelegramError] is the code in decimal, a colon and a space, and
    the description; it determines both: two such errors with the same
    message have the same [code] and the same [description].  The
    getters read the payload through. *)
Theorem telegramError_message_determines_payload printLarge r1 on1 r2 on2 :
  TelegramError.safeInteger (TelegramError.error_code r1) = true ->
  TelegramError.safeInteger (TelegramError.error_code r2) = true ->
  TelegramError.message (TelegramError.make printLarge r1 on1) =
  TelegramError.message (TelegramError.make printLarge r2 on2) ->
  TelegramError.code (TelegramError.make printLarge r1 on1) =
  TelegramError.code (TelegramError.make printLarge r2 on2) /\
  TelegramError.description_of (TelegramError.make printLarge r1 on1) =
  TelegramError.description_of (TelegramError.make printLarge r2 on2).
Proof.
  unfold TelegramError.make, TelegramError.code, TelegramError.description_of,
    TelegramError.numberToString.
  cbn [TelegramError.message TelegramError.response].
  intros Hsafe1 Hsafe2 H. rewrite Hsafe1, Hsafe2 in H.
  change (?n ++ ": " ++ ?d)%string with (n ++ String ":" (String " " d))%string in H.
  apply split_at_colon in H; try apply colonFree_number.
  destruct H as [Hcode Hdesc]. split.
  - now apply decimal_inj.
  - now injection Hdesc.
Qed.

Lemma telegramError_message_determines_payload_witness :
  (forall printLarge,
     TelegramError.message
       (TelegramError.make printLarge
          (TelegramError.mkPayload 429 "Too Many Requests" JUndefined) JUndefined) =
     "429: Too Many Requests") /\
  TelegramError.code
    (TelegramError.make (fun _ => EmptyString)
       (TelegramError.mkPayload 429 "Too Many Requests" JUndefined) JUndefined) =
  TelegramError.code
    (TelegramError.make (fun _ => EmptyString)
       (TelegramError.mkPayload 429 "Too Many Requests"
          (JObject [("retry_after", JNumber 5)]))
       (JObject [("method", JString "sendMessage")])).
Proof.
  split; [reflexivity |].
  exact (proj1 (telegramError_message_determines_payload (fun _ => EmptyString)
                  (TelegramError.mkPayload 429 "Too Many Requests" JUndefined) JUndefined
                  (TelegramError.mkPayload 429 "Too Many Requests"
                     (JObject [("retry_after", JNumber 5)]))
                  (JObject [("method", JString "sendMessage")])
                  eq_refl eq_refl eq_refl)).
Defined.

(** * Reply and send *)

Lemma reply_as_send_lookup thread target extra k :
  extraHas extra "reply_to_message_id" = true ->
  obj_get (spread [("message_thread_id", thread)]
             (Some (spread [("reply_to_message_id", target)] extra))) k =
  obj_get (spread [("message_thread_id", thread)] extra) k.
Proof.
  intros Hset. rewrite reply_params_lookup, send_params_lookup.
  destruct (extraHas extra k) eqn:E; [reflexivity |].
  destruct (String.eqb_spec "reply_to_message_id" k) as [<- | _]; [congruence |].
  reflexivity.
Qed.

(** X15.  When the caller names the reply target, a reply operation is
    its send operation: called with the same arguments and extras that
    hold [reply_to_message_id], [reply] and [sendMessage],
    [replyWithPhoto] and [sendPhoto], and so on for the eighteen pairs,
    make the same transport call up to a parameter object that reads
    the same under every key. *)
Theorem reply_with_target_is_send (r : Reply) (s : Send) :
  In r replyOperations -> In s sendOperations ->
  r_defaults r = [] -> s_method s = r_operation r ->
  forall ctx args extra calls,
    is_nullish (chat ctx) = false ->
    extraHas extra "reply_to_message_id" = true ->
    exists replied sent,
      r_run r ctx args extra calls =
      (let c := mkCall (s_method s)
                  (prop (chat ctx) "id" :: positional (s_arity s) args ++
                   [JObject replied]) in
       (inr c, calls ++ [c])) /\
      s_run s ctx args extra calls =
      (let c := mkCall (s_method s)
                  (prop (chat ctx) "id" :: positional (s_arity s) args ++
                   [JObject sent]) in
       (inr c, calls ++ [c])) /\
      forall k, obj_get replied k = obj_get sent k.
Proof.
  intros Hr Hs Hplain Hname ctx args extra calls Hchat Hset.
  unfold sendOperations in Hs; simpl in Hs.
  repeat (destruct Hs as [<- | Hs];
          [cbn [s_method s_arity s_run] in *;
           unfold replyOperations in Hr; simpl in Hr;
           repeat (destruct Hr as [<- | Hr];
                   [cbn [r_operation r_arity r_defaults r_run] in *;
                    first
                      [ discriminate
                      | eexists; eexists;
                        (split; [now apply send_delegates
                                | split; [now apply send_delegates
                                         | intros k; unfold reply_extra;
                                           now apply reply_as_send_lookup]]) ] |]);
           contradiction |]).
  contradiction.
Qed.

Lemma reply_with_target_is_send_witness :
  exists replied sent,
    reply messageUpdate (JString "hi") (Some [("reply_to_message_id", JNumber 1)]) [] =
    (let c := mkCall "sendMessage" [JNumber 42; JString "hi"; JObject replied] in
     (inr c, [c])) /\
    sendMessage messageUpdate (JString "hi") (Some [("reply_to_message_id", JNumber 1)]) [] =
    (let c := mkCall "sendMessage" [JNumber 42; JString "hi"; JObject sent] in
     (inr c, [c])) /\
    forall k, obj_get replied k = obj_get sent k.
Proof.
  exact (reply_with_target_is_send
           (mkReply "reply" "sendMessage" 1 [] (fun ctx a e => reply ctx (arg 0 a) e))
           (mkSend "sendMessage" 1 (fun ctx a e => sendMessage ctx (arg 0 a) e))
           ltac:(listed) ltac:(listed) eq_refl eq_refl
           messageUpdate [JString "hi"] (Some [("reply_to_message_id", JNumber 1)]) []
           eq_refl eq_refl).
Defined.
